(** * drone-runner-aws: the livelog writer and the pipeline engine

    A shallow embedding of [command/delegate/livelog/livelog.go] and
    [engine/engine.go], and the properties of the two that the
    specification states.

    Conventions.
    - Go's [int] is the 64-bit two's complement integer: a [Z] wrapped by
      [int_wrap] after every addition and subtraction.
    - [[]byte] and [string] are [string] (a list of bytes); [len] is the
      number of bytes.
    - A Go [error] value is [option error], [None] being [nil].
    - Code that calls a collaborator (the log service, the provisioning
      API, the remote shell, the clock) runs in the monad [M]: a state
      transformer over a world that holds the collaborator's own state and
      the list of calls made so far; a run-time panic is [None].
    - Calls to the structured logger have no effect on any result and are
      left out; [fmt.Print] and [fmt.Println] are kept as events. *)

From Stdlib Require Import ZArith Lia String Ascii List.
From stdpp Require Import base option list strings gmap sorting.

Open Scope Z_scope.

(** ** Go prelude *)

Module Go.

Definition int_min : Z := - 2 ^ 63.
Definition int_max : Z := 2 ^ 63 - 1.

(** Wrap-around of a 64-bit signed integer. *)
Definition int_wrap (z : Z) : Z := (z + 2 ^ 63) mod 2 ^ 64 - 2 ^ 63.
Definition int_add (a b : Z) : Z := int_wrap (a + b).
Definition int_sub (a b : Z) : Z := int_wrap (a - b).

(** [len(s)] of a string or byte slice. *)
Definition len (s : string) : Z := Z.of_nat (String.length s).

(** An [error] value.  [ExitError] is [*ssh.ExitError] of
    golang.org/x/crypto/ssh, the only error type the code tells apart;
    [errors_New] stands for every other one. *)
Inductive error : Type :=
| ExitError (ExitStatus : Z)
| errors_New (text : string).

(** State and panic: [None] is a run-time panic. *)
Definition M (S A : Type) : Type := S -> option (A * S).

Definition ret {S A} (a : A) : M S A := fun s => Some (a, s).
Definition bind {S A B} (m : M S A) (k : A -> M S B) : M S B :=
  fun s => match m s with
           | Some (a, s') => k a s'
           | None => None
           end.
Definition panic {S A} : M S A := fun _ => None.
Definition get {S} : M S S := fun s => Some (s, s).
Definition gets {S A} (f : S -> A) : M S A := fun s => Some (f s, s).
Definition modify {S} (f : S -> S) : M S unit := fun s => Some (tt, f s).

(** [for _, x := range l { body x }] *)
Fixpoint for_range {S A} (l : list A) (body : A -> M S unit) : M S unit :=
  match l with
  | [] => ret tt
  | x :: l' => bind (body x) (fun _ => for_range l' body)
  end.

Definition LF : ascii := "010"%char.

(** The string ["\n"]. *)
Definition newline : string := String LF EmptyString.

(** [strings.Contains(s, "\n")] *)
Fixpoint Contains (s : string) (c : ascii) : bool :=
  match s with
  | EmptyString => false
  | String a s' => if Ascii.eqb a c then true else Contains s' c
  end.

(** [strings.TrimSuffix(s, "\n")]: one trailing separator is dropped. *)
Fixpoint TrimSuffix (s : string) (c : ascii) : string :=
  match s with
  | EmptyString => EmptyString
  | String a EmptyString => if Ascii.eqb a c then EmptyString else s
  | String a s' => String a (TrimSuffix s' c)
  end.

(** [strings.SplitAfter(s, "\n")]: cut after every separator; the rest
    after the last separator is the last element, also when empty. *)
Fixpoint SplitAfter (s : string) (c : ascii) : list string :=
  match s with
  | EmptyString => [EmptyString]
  | String a s' =>
      if Ascii.eqb a c then String a EmptyString :: SplitAfter s' c
      else match SplitAfter s' c with
           | hd :: tl => String a hd :: tl
           | [] => [String a EmptyString]
           end
  end.

End Go.

Declare Scope go_scope.
Delimit Scope go_scope with go.
Notation "x <- m ;; k" := (Go.bind m (fun x => k))
  (at level 100, m at next level, right associativity) : go_scope.
Notation "m ;;; k" := (Go.bind m (fun _ => k))
  (at level 100, right associativity) : go_scope.

(** ** livelog: the writer that streams step output to the log service *)

Module livelog.
Import Go.

(** [time.Time] and [time.Duration], in nanoseconds. *)
Definition Time : Type := Z.
Definition Duration : Type := Z.
Definition Second : Duration := 1000000000.

(** [defaultLimit] is the default maximum log size in bytes. *)
Definition defaultLimit : Z := 5242880.

(** A [Line] of the log; the struct is declared beside the client. *)
Record Line : Type := mkLine {
  Number : Z;
  Message : string;
  Timestamp : Time;
  Level : string
}.

(** The [Writer] struct.  The embedded mutex is not modelled: every
    method below runs atomically between two steps of the flusher.
    [close] is the close channel ([true] once closed) and [ready] the
    one-slot ready channel ([true] while a token is buffered). *)
Record Writer : Type := mkWriter {
  key : string;
  num : Z;
  now : Time;
  size : Z;
  limit : Z;
  interval : Duration;
  pending : list Line;
  history : list Line;
  closed : bool;
  close : bool;
  ready : bool
}.

Definition set_num (v : Z) (b : Writer) : Writer :=
  mkWriter (key b) v (now b) (size b) (limit b) (interval b)
           (pending b) (history b) (closed b) (close b) (ready b).
Definition set_size (v : Z) (b : Writer) : Writer :=
  mkWriter (key b) (num b) (now b) v (limit b) (interval b)
           (pending b) (history b) (closed b) (close b) (ready b).
Definition set_limit (v : Z) (b : Writer) : Writer :=
  mkWriter (key b) (num b) (now b) (size b) v (interval b)
           (pending b) (history b) (closed b) (close b) (ready b).
Definition set_interval (v : Duration) (b : Writer) : Writer :=
  mkWriter (key b) (num b) (now b) (size b) (limit b) v
           (pending b) (history b) (closed b) (close b) (ready b).
Definition set_pending (v : list Line) (b : Writer) : Writer :=
  mkWriter (key b) (num b) (now b) (size b) (limit b) (interval b)
           v (history b) (closed b) (close b) (ready b).
Definition set_history (v : list Line) (b : Writer) : Writer :=
  mkWriter (key b) (num b) (now b) (size b) (limit b) (interval b)
           (pending b) v (closed b) (close b) (ready b).
Definition set_closed (b : Writer) : Writer :=
  mkWriter (key b) (num b) (now b) (size b) (limit b) (interval b)
           (pending b) (history b) true true (ready b).
Definition set_ready (v : bool) (b : Writer) : Writer :=
  mkWriter (key b) (num b) (now b) (size b) (limit b) (interval b)
           (pending b) (history b) (closed b) (close b) v.

(** What the writer does to the outside, in order. *)
Inductive Event : Type :=
| OpenCall (key : string)
| CloseCall (key : string)
| UploadCall (key : string) (data : string)
| BatchCall (key : string) (lines : list Line)
| fmt_Print (text : string)
| fmt_Println (text : string) (err : error).

(** The [Client] interface: the log service, with a state [C] of its
    own that decides whether a call fails. *)
Class Client (C : Type) : Type := {
  client_Open : string -> C -> option error * C;
  client_Close : string -> C -> option error * C;
  client_Upload : string -> string -> C -> option error * C;
  client_Batch : string -> list Line -> C -> option error * C
}.

(** The clock and the JSON encoder: the [n]-th reading of [time.Now],
    and [json.NewEncoder(buf).Encode(l)] followed by [buf.Bytes()]. *)
Class Runtime : Type := {
  time_Now : nat -> Time;
  json_Encode : Line -> string + error
}.

(** Where the flusher goroutine [start] stands. *)
Inductive Flusher : Type :=
| Selecting      (* in the outer select *)
| Debouncing     (* in the inner select, the timer is running *)
| Returned.

Record State (C : Type) : Type := mkState {
  b : Writer;
  svc : C;
  clock : nat;
  flusher : Flusher;
  events : list Event
}.
Arguments mkState {C}.
Arguments b {C}.
Arguments svc {C}.
Arguments clock {C}.
Arguments flusher {C}.
Arguments events {C}.

Section Methods.
Context {C : Type} `{Client C} `{Runtime}.

Local Open Scope go_scope.

Definition upd (f : Writer -> Writer) : M (State C) unit :=
  modify (fun s => mkState (f (b s)) (svc s) (clock s) (flusher s) (events s)).

Definition emit (e : Event) : M (State C) unit :=
  modify (fun s => mkState (b s) (svc s) (clock s) (flusher s) (events s ++ [e])).

Definition set_flusher (f : Flusher) : M (State C) unit :=
  modify (fun s => mkState (b s) (svc s) (clock s) f (events s)).

(** A call of the client: the event, then the service's answer. *)
Definition call (e : Event) (f : C -> option error * C) : M (State C) (option error) :=
  emit e ;;;
  fun s => let '(r, c') := f (svc s) in
           Some (r, mkState (b s) c' (clock s) (flusher s) (events s)).

(** [time.Now()] *)
Definition Now : M (State C) Time :=
  fun s => Some (time_Now (clock s),
                 mkState (b s) (svc s) (S (clock s)) (flusher s) (events s)).

(** [New]: the writer just built, after [client.Open] and with the
    flusher started. *)
Definition New (c : C) (id : string) : State C :=
  let w := mkWriter id 0 (time_Now 0%nat) 0 defaultLimit Second [] [] false false false in
  let '(err, c') := client_Open id c in
  mkState w c' 1%nat Selecting
          ([OpenCall id] ++
           match err with
           | Some e => [fmt_Println "error while opening log stream: " e]
           | None => []
           end).

Definition SetLimit (limit : Z) : M (State C) unit := upd (set_limit limit).

Definition SetInterval (interval : Duration) : M (State C) unit :=
  upd (set_interval interval).

(** [stop] closes the close channel and sets [closed], once; it
    tells whether this call did. *)
Definition stop : M (State C) bool :=
  w <- gets b ;;
  if closed w then ret false
  else (upd set_closed ;;; ret true).

Definition stopped : M (State C) bool := gets (fun s => closed (b s)).

Definition copy : M (State C) (list Line) := gets (fun s => pending (b s)).

Definition clear : M (State C) unit := upd (set_pending []).

(** [flush] batch uploads all buffered logs to the server. *)
Definition flush : M (State C) (option error) :=
  lines <- copy ;;
  clear ;;;
  match lines with
  | [] => ret None
  | _ => k <- gets (fun s => key (b s)) ;;
         call (BatchCall k lines) (client_Batch k lines)
  end.

(** The body of [upload]'s loop: the encoded history, or the first
    encoding error. *)
Fixpoint encode_lines (ls : list Line) (data : string) : string + error :=
  match ls with
  | [] => inl data
  | l :: ls' =>
      match json_Encode l with
      | inr err => inr err
      | inl buf => encode_lines ls' (data +:+ buf)
      end
  end.

(** [upload] uploads the full log history to the server. *)
Definition upload : M (State C) (option error) :=
  w <- gets b ;;
  match encode_lines (history w) "" with
  | inr err => ret (Some err)
  | inl data => call (UploadCall (key w) data) (client_Upload (key w) data)
  end.

(** [split]: the block as one line, or cut after every line feed when
    a line feed stands before its last byte. *)
Definition split (p : string) : list string :=
  let s := p in
  let v := [s] in
  if Contains (TrimSuffix s LF) LF then SplitAfter s LF else v.

(** The loop [for b.size+len(p) > b.limit { ... }] of [Write], by
    recursion on the history [h] of [w]: every round calls [stop],
    reads [b.history[0]] (a panic on an empty history) and drops it. *)
Fixpoint evict (len_p : Z) (w : Writer) (h : list Line) {struct h} : option Writer :=
  if int_add (size w) len_p >? limit w then
    let w1 := if closed w then w else set_closed w in
    match h with
    | [] => None
    | l :: h' =>
        evict len_p
              (set_history h' (set_size (int_sub (size w1) (len (Message l))) w1))
              h'
    end
  else Some w.

Definition evict_loop (len_p : Z) : M (State C) unit :=
  fun s => match evict len_p (b s) (history (b s)) with
           | Some w => Some (tt, mkState w (svc s) (clock s) (flusher s) (events s))
           | None => None
           end.

(** The body of [Write]'s loop over the parts of the block [p]. *)
Definition write_part (p : string) (part : string) : M (State C) unit :=
  n <- gets (fun s => num (b s)) ;;
  t <- Now ;;
  let line := mkLine n part t "info" in
  evict_loop (len p) ;;;
  upd (fun w => set_size (int_add (size w) (len part)) w) ;;;
  upd (fun w => set_num (int_add (num w) 1) w) ;;;
  st <- stopped ;;
  (if st then ret tt
   else upd (fun w => set_pending (pending w ++ [line]) w)) ;;;
  upd (fun w => set_history (history w ++ [line]) w).

(** [Write] uploads the live log stream to the server. *)
Definition Write (p : string) : M (State C) (Z * option error) :=
  emit (fmt_Print p) ;;;
  for_range (split p) (write_part p) ;;;
  upd (set_ready true) ;;;
  ret (len p, None).

(** [Close] closes the writer and uploads the full contents to the
    server. *)
Definition Close : M (State C) (option error) :=
  first <- stop ;;
  (if first then (_ <- flush ;; ret tt) else ret tt) ;;;
  err <- upload ;;
  match err with
  | Some e => emit (fmt_Println "could not upload logs: " e)
  | None => ret tt
  end ;;;
  k <- gets (fun s => key (b s)) ;;
  errc <- call (CloseCall k) (client_Close k) ;;
  match errc with
  | Some e => emit (fmt_Println "failed to close log stream: " e)
  | None => ret tt
  end ;;;
  ret err.

(** One step of the flusher goroutine [start].  When both cases of a
    select are ready Go chooses either; [pick_close] is that choice.
    A step that finds nothing ready leaves the state as it is. *)
Definition start (pick_close : bool) : M (State C) unit :=
  s <- get ;;
  match flusher s with
  | Returned => ret tt
  | Selecting =>
      if close (b s) && (pick_close || negb (ready (b s)))
      then set_flusher Returned
      else if ready (b s)
           then (upd (set_ready false) ;;; set_flusher Debouncing)
           else ret tt
  | Debouncing =>
      if close (b s) && pick_close
      then set_flusher Returned
      else (_ <- flush ;; set_flusher Selecting)
  end.

End Methods.

(** *** Runs of a writer, and what the specification says of them *)

(** What happens to a writer, one operation after the other: a call
    of [Write], a call of [Close], a step of the flusher. *)
Inductive Op : Type :=
| DoWrite (p : string)
| DoClose
| DoStart (pick_close : bool).

(** The blocks written by a run, in order. *)
Definition blocks (ops : list Op) : list string :=
  flat_map (fun o => match o with DoWrite p => [p] | _ => [] end) ops.

(** The bytes held by a list of lines. *)
Definition total (ls : list Line) : Z :=
  foldr (fun l acc => len (Message l) + acc) 0 ls.

(** No addition of [Write] wraps around for a block [p] under limit
    [lim]. *)
Definition fits (lim : Z) (p : string) : Prop := lim + len p <= int_max.

(** The size the writer tracks is the size of its history and is
    within the limit, and so is the pending batch (within the tracked
    size until the writer is stopped). *)
Definition sound (w : Writer) : Prop :=
  size w = total (history w) /\ size w <= limit w /\
  total (pending w) <= limit w /\
  (closed w = false -> total (pending w) <= size w).

(** A step from [s] to [s'] that leaves the lines alone: the counter,
    the tracked size, the limit, the history, the key and the clock
    stay, a stopped writer stays stopped, and the pending batch stays
    or is emptied. *)
Definition calm {C : Type} (s s' : State C) : Prop :=
  num (b s') = num (b s) /\ size (b s') = size (b s) /\
  limit (b s') = limit (b s) /\ history (b s') = history (b s) /\
  key (b s') = key (b s) /\ clock s' = clock s /\
  (closed (b s) = true -> closed (b s') = true) /\
  (pending (b s') = pending (b s) \/ pending (b s') = []).

Definition is_Batch (e : Event) : bool :=
  match e with BatchCall _ _ => true | _ => false end.

Definition is_Upload (e : Event) : bool :=
  match e with UploadCall _ _ => true | _ => false end.

(** The line [fmt.Println] prints for a non-nil error. *)
Definition diag (text : string) (err : option error) : list Event :=
  match err with
  | Some e => [fmt_Println text e]
  | None => []
  end.

Section Runs.
Context {C : Type} `{Client C} `{Runtime}.

Local Open Scope go_scope.

Definition exec (o : Op) : M (State C) unit :=
  match o with
  | DoWrite p => _ <- Write p ;; ret tt
  | DoClose => _ <- Close ;; ret tt
  | DoStart pick_close => start pick_close
  end.

Definition run (ops : list Op) : M (State C) unit := for_range ops exec.

(** The lines a new writer builds for the parts it is given: the
    [n]-th part (from 0) is numbered [n] and stamped with the reading
    of the clock after the one of [New]. *)
Fixpoint lines_from (n : nat) (parts : list string) : list Line :=
  match parts with
  | [] => []
  | m :: parts' =>
      mkLine (int_wrap (Z.of_nat n)) m (time_Now (S n)) "info"
      :: lines_from (S n) parts'
  end.

(** Every record ever written, for the blocks [ps]. *)
Definition written (ps : list string) : list Line :=
  lines_from 0 (flat_map split ps).

(** A writer that has been given the parts [parts] since [New]: its
    counter and its clock count them, and its history is the end of
    the lines built for them, all of them until it is stopped. *)
Definition follows (parts : list string) (s : State C) : Prop :=
  num (b s) = int_wrap (Z.of_nat (length parts)) /\
  clock s = S (length parts) /\
  (exists evicted, lines_from 0 parts = evicted ++ history (b s)) /\
  (closed (b s) = false -> history (b s) = lines_from 0 parts).

(** Modelled from the spec: the eviction test the specification words,
    on the length of the incoming line in place of the length of the
    block ("while retained size plus the incoming line's length would
    exceed the configured byte limit").  [Write] tests [len(p)]. *)
Definition Write_by_line (p : string) : M (State C) (Z * option error) :=
  emit (fmt_Print p) ;;;
  for_range (split p) (fun part => write_part part part) ;;;
  upd (set_ready true) ;;;
  ret (len p, None).

End Runs.

(** A log service that accepts every call, one that refuses every
    upload, and a run time whose clock counts its readings and whose
    encoder writes the message alone. *)
Definition quiet : Client unit :=
  Build_Client unit (fun _ c => (None, c)) (fun _ c => (None, c))
               (fun _ _ c => (None, c)) (fun _ _ c => (None, c)).

Definition refusing : Client unit :=
  Build_Client unit (fun _ c => (None, c)) (fun _ c => (None, c))
               (fun _ _ c => (Some (errors_New "refused"), c))
               (fun _ _ c => (None, c)).

Definition plain : Runtime :=
  Build_Runtime (fun n => Z.of_nat n) (fun l => inl (Message l)).

(** A new writer of the log service [quiet], and two blocks: two
    lines of which the last has no line feed, and two lines that both
    end in theirs. *)
Definition fresh : State unit := @New unit quiet plain tt "step".
Definition two_lines : string := "aaaa" +:+ newline +:+ "bbbb".
Definition two_feeds : string := "a" +:+ newline +:+ "b" +:+ newline.

End livelog.

(** ** platform: the provisioning collaborator's data *)

Module platform.

Record Credentials : Type := mkCredentials {
  Client : string;
  Secret : string;
  Region : string
}.

Record Instance : Type := mkInstance {
  ID : string;
  IP : string
}.

Record ProvisionArgs : Type := mkProvisionArgs {
  Image : string;
  IamProfileArn : string;
  Name : string;
  Size : string;
  ArgsRegion : string;
  Userdata : string;
  Tags : gmap string string;
  Subnet : string;
  Groups : list string;
  Device : string;
  PrivateIP : bool;
  VolumeType : string;
  VolumeSize : Z;
  VolumeIops : Z
}.

End platform.

(** ** engine: setting up, running on and destroying an instance *)

Module engine.
Import Go.

(** The specification of an instance and of a step.  The structs are
    declared outside [engine.go]; the fields are the ones it reads and
    writes.  [Tags] is the mutable map of tags. *)
Record account : Type := mkAccount {
  AccessKeyID : string;
  AccessKeySecret : string;
  Region : string
}.

Record network : Type := mkNetwork {
  SubnetID : string;
  SecurityGroups : list string;
  PrivateIP : bool
}.

Record device : Type := mkDevice { Name : string }.

Record disk : Type := mkDisk {
  Disk_Type : string;
  Disk_Size : Z;
  Iops : Z
}.

Record instance : Type := mkInstance {
  AMI : string;
  IAMProfileARN : string;
  User : string;
  Type_ : string;
  UserData : string;
  Tags : gmap string string;
  Network : network;
  Device : device;
  Disk : disk;
  UsePool : bool;
  ID : string;
  IP : string;
  PrivateKey : string
}.

Record os_platform : Type := mkPlatform { OS : string }.

Record File : Type := mkFile {
  Path : string;
  Mode : Z;
  Data : string;
  IsDir : bool
}.

Record volume_empty_dir : Type := mkEmptyDir { EmptyDir_ID : string }.
Record Volume : Type := mkVolume { EmptyDir : volume_empty_dir }.

Record Spec : Type := mkSpec {
  Account : account;
  Instance : instance;
  PoolName : string;
  Root : string;
  Files : list File;
  Volumes : list Volume;
  Platform : os_platform
}.

Record Secret : Type := mkSecret {
  Env : string;
  Secret_Data : string
}.

Record Step : Type := mkStep {
  Command : string;
  Args : list string;
  WorkingDir : string;
  Envs : gmap string string;
  Secrets : list Secret;
  Step_Files : list File
}.

(** [runtime.State] *)
Record State : Type := mkState {
  ExitCode : Z;
  Exited : bool;
  OOMKilled : bool
}.

(** [InstanceSpec] is a pointer: [None] is [nil]. *)
Record Pool : Type := mkPool {
  InstanceSpec : option Spec;
  PoolSize : Z
}.

(** [Opts] configures the Engine; the mutex is not modelled. *)
Record Opts : Type := mkOpts {
  RunnerName : string;
  Pools : gmap string Pool
}.

Record Engine : Type := mkEngine { opts : Opts }.

(** [New] returns a new engine. *)
Definition New (o : Opts) : Engine * option error := (mkEngine o, None).

Definition set_Tags (t : gmap string string) (i : instance) : instance :=
  mkInstance (AMI i) (IAMProfileARN i) (User i) (Type_ i) (UserData i) t
             (Network i) (Device i) (Disk i) (UsePool i) (ID i) (IP i)
             (PrivateKey i).
Definition set_ID (v : string) (i : instance) : instance :=
  mkInstance (AMI i) (IAMProfileARN i) (User i) (Type_ i) (UserData i) (Tags i)
             (Network i) (Device i) (Disk i) (UsePool i) v (IP i)
             (PrivateKey i).
Definition set_IP (v : string) (i : instance) : instance :=
  mkInstance (AMI i) (IAMProfileARN i) (User i) (Type_ i) (UserData i) (Tags i)
             (Network i) (Device i) (Disk i) (UsePool i) (ID i) v
             (PrivateKey i).
Definition set_Instance (i : instance) (s : Spec) : Spec :=
  mkSpec (Account s) i (PoolName s) (Root s) (Files s) (Volumes s) (Platform s).

(** The calls the engine makes, in order.  [EnterSetup] marks an entry
    into [Setup]; [Select] is the wait of [Run] for the command started
    on the session or for the context, whichever comes first. *)
Inductive Call : Type :=
| EnterSetup (spec : Spec)
| TryPool (creds : platform.Credentials) (pool : string)
| Create (creds : platform.Credentials) (args : platform.ProvisionArgs)
| PlatformDestroy (creds : platform.Credentials) (i : platform.Instance)
| PoolCountFree (creds : platform.Credentials) (pool : string)
| Ping_ (creds : platform.Credentials)
| DialRetry (ip user key : string)
| Dial (ip user key : string)
| ClientClose
| NewClient
| SftpClose
| MkdirAll (path : string)
| Chmod (path : string) (mode : Z)
| SftpCreate (path : string)
| FileWrite (data : string)
| FileChmod (mode : Z)
| FileClose
| NewSession
| SessionClose
| SessionRun (cmd : string)
| Select (cmd : string)
| Signal (sig : string)
| Sleep (seconds : Z).

(** The collaborators: the provisioning API, the remote shell and its
    file transfer.  [W] is their state; [Conn], [Ftp], [Sess] and [Fh]
    are the connection, the file-transfer client, the session and the
    open remote file.  A pair of a value and an error of which the code
    reads one only is a sum. *)
Class Cloud (W Conn Ftp Sess Fh Out : Type) : Type := {
  platform_TryPool : platform.Credentials -> string -> W ->
                     (bool * string * string * option error) * W;
  platform_Create : platform.Credentials -> platform.ProvisionArgs -> W ->
                    (platform.Instance + error) * W;
  platform_Destroy : platform.Credentials -> platform.Instance -> W ->
                     option error * W;
  platform_PoolCountFree : platform.Credentials -> string -> W ->
                           (Z * option error) * W;
  platform_Ping : platform.Credentials -> W -> option error * W;
  ssh_DialRetry : string -> string -> string -> W -> (Conn + error) * W;
  ssh_Dial : string -> string -> string -> W -> (Conn + error) * W;
  client_Close : Conn -> W -> option error * W;
  sftp_NewClient : Conn -> W -> (Ftp + error) * W;
  sftp_Close : Ftp -> W -> option error * W;
  sftp_MkdirAll : Ftp -> string -> W -> option error * W;
  sftp_Chmod : Ftp -> string -> Z -> W -> option error * W;
  sftp_Create : Ftp -> string -> W -> (Fh + error) * W;
  file_Write : Fh -> string -> W -> option error * W;
  file_Chmod : Fh -> Z -> W -> option error * W;
  file_Close : Fh -> W -> option error * W;
  client_NewSession : Conn -> W -> (Sess + error) * W;
  session_Close : Sess -> W -> option error * W;
  session_Run : Sess -> string -> W -> option error * W;
  (** [inl err]: the command is done with [err]; [inr e]: the context
      is done first and [ctx.Err()] is [e]. *)
  session_Select : Sess -> Out -> string -> W -> (option error + error) * W;
  session_Signal : Sess -> string -> W -> option error * W;
  (** [%q] of package fmt *)
  fmt_q : string -> string
}.

Record World (W : Type) : Type := mkWorld {
  env : W;
  calls : list Call
}.
Arguments mkWorld {W}.
Arguments env {W}.
Arguments calls {W}.

(** [strings.Join] *)
Fixpoint Join (l : list string) (sep : string) : string :=
  match l with
  | [] => ""
  | [x] => x
  | x :: l' => x +:+ sep +:+ Join l' sep
  end.

Definition is_EnterSetup (c : Call) : bool :=
  match c with EnterSetup _ => true | _ => false end.

Definition no_Setup (c : Call) : Prop := is_EnterSetup c = false.

(** [m] never panics, and the calls it makes all satisfy [P]. *)
Definition emits {W A : Type} (P : Call -> Prop) (m : M (World W) A) : Prop :=
  forall w, exists r w' t,
    m w = Some (r, w') /\ calls w' = calls w ++ t /\ Forall P t.

Section Methods.
Context {W Conn Ftp Sess Fh Out : Type} `{Cloud W Conn Ftp Sess Fh Out}.

Local Open Scope go_scope.

Definition emit (c : Call) : M (World W) unit :=
  modify (fun w => mkWorld (env w) (calls w ++ [c])).

(** A call of a collaborator: the event, then the answer. *)
Definition call {A} (c : Call) (f : W -> A * W) : M (World W) A :=
  emit c ;;;
  fun w => let '(r, e') := f (env w) in Some (r, mkWorld e' (calls w)).

(** [defer cleanup] around [body]. *)
Definition defer {A B} (cleanup : M (World W) B) (body : M (World W) A)
  : M (World W) A :=
  r <- body ;; cleanup ;;; ret r.

(** [if err != nil { return err }], then the rest. *)
Definition check (m : M (World W) (option error))
           (k : M (World W) (option error)) : M (World W) (option error) :=
  err <- m ;;
  match err with
  | Some e => ret (Some e)
  | None => k
  end.

(** A range loop whose body returns from the function on an error. *)
Fixpoint for_check {A} (l : list A) (body : A -> M (World W) (option error))
  : M (World W) (option error) :=
  match l with
  | [] => ret None
  | x :: l' => check (body x) (for_check l' body)
  end.

Definition upload (client : Ftp) (path : string) (data : string) (mode : Z)
  : M (World W) (option error) :=
  f <- call (SftpCreate path) (sftp_Create client path) ;;
  match f with
  | inr err => ret (Some err)
  | inl f =>
      defer (call FileClose (file_Close f))
            (check (call (FileWrite data) (file_Write f data))
                   (check (call (FileChmod mode) (file_Chmod f mode))
                          (ret None)))
  end.

Definition mkdir (client : Ftp) (path : string) (mode : Z)
  : M (World W) (option error) :=
  check (call (MkdirAll path) (sftp_MkdirAll client path))
        (call (Chmod path mode) (sftp_Chmod client path mode)).

Definition credentials (spec : Spec) : platform.Credentials :=
  platform.mkCredentials (AccessKeyID (Account spec))
                         (AccessKeySecret (Account spec))
                         (Region (Account spec)).

(** The tags [Setup] adds to [spec.Instance.Tags]. *)
Definition add_tags (e : Engine) (spec : Spec) : gmap string string :=
  let awsTags := Tags (Instance spec) in
  let awsTags := <["drone" := "drone-runner-aws"]> awsTags in
  let awsTags := <["pool" := PoolName spec]> awsTags in
  let awsTags := <["creator" := RunnerName (opts e)]> awsTags in
  if UsePool (Instance spec)
  then <["status" := "build in progress"]> awsTags
  else awsTags.

Definition provision_args (spec : Spec) (awsTags : gmap string string)
  : platform.ProvisionArgs :=
  platform.mkProvisionArgs
    (AMI (Instance spec)) (IAMProfileARN (Instance spec))
    (User (Instance spec)) (Type_ (Instance spec))
    (Region (Account spec)) (UserData (Instance spec))
    awsTags
    (SubnetID (Network (Instance spec)))
    (SecurityGroups (Network (Instance spec)))
    (Name (Device (Instance spec)))
    (PrivateIP (Network (Instance spec)))
    (Disk_Type (Disk (Instance spec)))
    (Disk_Size (Disk (Instance spec)))
    (Iops (Disk (Instance spec))).

(** The build environment on the instance: the workspace, the
    folders, the files and the folders of the temporary volumes. *)
Definition stage (clientftp : Ftp) (spec : Spec) : M (World W) (option error) :=
  check (mkdir clientftp (Root spec) 511)
  (check (for_check (Files spec) (fun file =>
            if negb (IsDir file) then ret None
            else mkdir clientftp (Path file) (Mode file)))
  (check (for_check (Files spec) (fun file =>
            if IsDir file then ret None
            else upload clientftp (Path file) (Data file) (Mode file)))
  (for_check (Volumes spec) (fun volume =>
            if String.eqb (EmptyDir_ID (EmptyDir volume)) "" then ret None
            else mkdir clientftp (EmptyDir_ID (EmptyDir volume)) 511)))).

(** The docker network, created on a new session. *)
Definition create_network (client : Conn) (spec : Spec)
  : M (World W) (option error) :=
  s <- call NewSession (client_NewSession client) ;;
  match s with
  | inr err => ret (Some err)
  | inl session =>
      defer (call SessionClose (session_Close session))
            (emit (Sleep 80) ;;;
             let networkCommand :=
               if String.eqb (OS (Platform spec)) "windows"
               then "docker network create --driver nat myNetwork"
               else "docker network create myNetwork" in
             call (SessionRun networkCommand) (session_Run session networkCommand))
  end.

(** [Setup], from the connection to the instance on. *)
Definition configure (spec : Spec) : M (World W) (option error) :=
  c <- call (DialRetry (IP (Instance spec)) (User (Instance spec))
                       (PrivateKey (Instance spec)))
            (ssh_DialRetry (IP (Instance spec)) (User (Instance spec))
                           (PrivateKey (Instance spec))) ;;
  match c with
  | inr err => ret (Some err)
  | inl client =>
      defer (call ClientClose (client_Close client))
            (f <- call NewClient (sftp_NewClient client) ;;
             match f with
             | inr err => ret (Some err)
             | inl clientftp =>
                 defer (call SftpClose (sftp_Close clientftp))
                       (check (stage clientftp spec)
                              (create_network client spec))
             end)
  end.

(** The first block of [Setup]: with [spec.Instance.UsePool], the
    instance of the pool when [platform.TryPool] finds one.  Its error
    is logged only. *)
Definition reserve (spec : Spec) : M (World W) (option (string * string)) :=
  let creds := credentials spec in
  if UsePool (Instance spec)
  then r <- call (TryPool creds (PoolName spec))
                 (platform_TryPool creds (PoolName spec)) ;;
       let '(found, id, ip, poolErr) := r in
       ret (if found : bool then Some (id, ip) else None)
  else ret None.

(** The rest of [Setup] when no instance of a pool is used: the tags,
    the new instance, and the build environment on it. *)
Definition provision (e : Engine) (spec : Spec)
  : M (World W) (Spec * option error) :=
  let creds := credentials spec in
  let awsTags := add_tags e spec in
  let spec := set_Instance (set_Tags awsTags (Instance spec)) spec in
  let provArgs := provision_args spec awsTags in
  i <- call (Create creds provArgs) (platform_Create creds provArgs) ;;
  match i with
  | inr createErr => ret (spec, Some createErr)
  | inl instance =>
      let spec := set_Instance
                    (set_IP (platform.IP instance)
                            (set_ID (platform.ID instance) (Instance spec)))
                    spec in
      err <- configure spec ;;
      ret (spec, err)
  end.

(** [Setup] the pipeline environment.  The result is the caller's
    spec as the call leaves it, and the error returned. *)
Definition Setup (e : Engine) (spec : Spec) : M (World W) (Spec * option error) :=
  emit (EnterSetup spec) ;;;
  pooled <- reserve spec ;;
  match pooled with
  | Some (id, ip) =>
      ret (set_Instance (set_IP ip (set_ID id (Instance spec))) spec, None)
  | None => provision e spec
  end.

(** Whether [Setup] takes an instance of the pool in the state [w] of
    the collaborators, and their state after it has asked. *)
Definition pool_finds (spec : Spec) (w : W) : bool :=
  UsePool (Instance spec) &&
  (platform_TryPool (credentials spec) (PoolName spec) w).1.1.1.1.

Definition after_pool (spec : Spec) (w : W) : W :=
  if UsePool (Instance spec)
  then (platform_TryPool (credentials spec) (PoolName spec) w).2
  else w.

(** [Destroy] the pipeline environment.  [Setup] writes to the spec
    of the pool through its pointer: the result carries the engine
    with that spec as [Setup] leaves it. *)
Definition Destroy (e : Engine) (spec : Spec) : M (World W) (Engine * option error) :=
  let creds := credentials spec in
  let instance := platform.mkInstance (ID (Instance spec)) (IP (Instance spec)) in
  err <- call (PlatformDestroy creds instance) (platform_Destroy creds instance) ;;
  match err with
  | Some err => ret (e, Some err)
  | None =>
      if UsePool (Instance spec) then
        r <- call (PoolCountFree creds (PoolName spec))
                  (platform_PoolCountFree creds (PoolName spec)) ;;
        let '(poolCount, countPoolErr) := r in
        let pool := default (mkPool None 0) (Pools (opts e) !! PoolName spec) in
        if poolCount <? PoolSize pool then
          match InstanceSpec pool with
          | None => panic
          | Some template =>
              r <- Setup e template ;;
              let '(template', createInstanceErr) := r in
              ret (mkEngine
                     (mkOpts (RunnerName (opts e))
                             (<[PoolName spec := mkPool (Some template') (PoolSize pool)]>
                                (Pools (opts e)))),
                   None)
          end
        else ret (e, None)
      else ret (e, None)
  end.

Definition writeWorkdir (path : string) : string :=
  "cd " +:+ path +:+ String LF "".

(** [writeEnv] writes the shell command that exports a key value pair
    as an environment variable. *)
Definition writeEnv (os key value : string) : string :=
  if String.eqb os "windows"
  then "$Env:" +:+ key +:+ " = " +:+ fmt_q value +:+ String LF ""
  else "export " +:+ key +:+ "=" +:+ fmt_q value +:+ String LF "".

Definition writeSecrets (os : string) (secrets : list Secret) : string :=
  foldr (fun s acc => writeEnv os (Env s) (Secret_Data s) +:+ acc) "" secrets.

(** [sort.Strings] *)
Definition sort_Strings (keys : list string) : list string :=
  merge_sort (fun a b => Is_true (String.leb a b)) keys.

Definition writeEnviron (os : string) (envs : gmap string string) : string :=
  let keys := sort_Strings (map fst (map_to_list envs)) in
  foldr (fun k acc => writeEnv os k (default "" (envs !! k)) +:+ acc) "" keys.

(** The state [Run] builds once the command is done with [err]. *)
Definition exit_state (err : option error) : State :=
  let state := mkState 0 true false in
  let state := match err with
               | Some _ => mkState 255 (Exited state) (OOMKilled state)
               | None => state
               end in
  match err with
  | Some (ExitError status) => mkState status (Exited state) (OOMKilled state)
  | _ => state
  end.

(** The command line of a step. *)
Definition command_line (step : Step) : string :=
  Command step +:+ " " +:+ Join (Args step) " ".

(** The end of [Run], on the session: the command is started with
    its output bound to [output], and [Run] waits for it or for the
    context.  When the context is done first the remote process is
    sent a kill signal and [Run] returns the error of the context. *)
Definition execute (session : Sess) (step : Step) (output : Out)
  : M (World W) (option State * option error) :=
  let cmd := command_line step in
  done <- call (Select cmd) (session_Select session output cmd) ;;
  match done with
  | inr ctxErr =>
      call (Signal "KILL") (session_Signal session "KILL") ;;;
      ret (None, Some ctxErr)
  | inl err => ret (Some (exit_state err), err)
  end.

(** [Run] runs the pipeline step. *)
Definition Run (e : Engine) (spec : Spec) (step : Step) (output : Out)
  : M (World W) (option State * option error) :=
  c <- call (Dial (IP (Instance spec)) (User (Instance spec))
                  (PrivateKey (Instance spec)))
            (ssh_Dial (IP (Instance spec)) (User (Instance spec))
                      (PrivateKey (Instance spec))) ;;
  match c with
  | inr err => ret (None, Some err)
  | inl client =>
  defer (call ClientClose (client_Close client))
  (f <- call NewClient (sftp_NewClient client) ;;
   match f with
   | inr err => ret (None, Some err)
   | inl clientftp =>
   defer (call SftpClose (sftp_Close clientftp))
   (err <- for_check (Step_Files step) (fun file =>
             let w := writeWorkdir (WorkingDir step)
                      +:+ writeSecrets (OS (Platform spec)) (Secrets step)
                      +:+ writeEnviron (OS (Platform spec)) (Envs step)
                      +:+ Data file in
             upload clientftp (Path file) w (Mode file)) ;;
    match err with
    | Some err => ret (None, Some err)
    | None =>
    s <- call NewSession (client_NewSession client) ;;
    match s with
    | inr err => ret (None, Some err)
    | inl session =>
    defer (call SessionClose (session_Close session))
          (execute session step output)
    end
    end)
   end)
  end.

Definition Ping (e : Engine) (accessKeyID accessKeySecret region : string)
  : M (World W) (option error) :=
  let creds := platform.mkCredentials accessKeyID accessKeySecret region in
  call (Ping_ creds) (platform_Ping creds).

End Methods.

(** *** A scripted cloud *)

(** The answers of a cloud that follows a script: what the pool and
    the provisioning API say, and how the command of a step ends.
    Every other call succeeds. *)
Record Script : Type := mkScript {
  pool_found : bool;
  pool_error : option error;
  create_result : platform.Instance + error;
  destroy_error : option error;
  free_count : Z;
  count_error : option error;
  command_done : option error + error
}.

Definition scripted : Cloud Script unit unit unit unit unit := {|
  platform_TryPool _ _ w :=
    ((pool_found w, "i-pool", "10.0.0.1", pool_error w), w);
  platform_Create _ _ w := (create_result w, w);
  platform_Destroy _ _ w := (destroy_error w, w);
  platform_PoolCountFree _ _ w := ((free_count w, count_error w), w);
  platform_Ping _ w := (None, w);
  ssh_DialRetry _ _ _ w := (inl tt, w);
  ssh_Dial _ _ _ w := (inl tt, w);
  client_Close _ w := (None, w);
  sftp_NewClient _ w := (inl tt, w);
  sftp_Close _ w := (None, w);
  sftp_MkdirAll _ _ w := (None, w);
  sftp_Chmod _ _ _ w := (None, w);
  sftp_Create _ _ w := (inl tt, w);
  file_Write _ _ w := (None, w);
  file_Chmod _ _ w := (None, w);
  file_Close _ w := (None, w);
  client_NewSession _ w := (inl tt, w);
  session_Close _ w := (None, w);
  session_Run _ _ w := (None, w);
  session_Select _ _ _ w := (command_done w, w);
  session_Signal _ _ w := (None, w);
  fmt_q v := v
|}.

(** A pool-backed spec of the pool ["linux"], the engine of a runner
    that keeps two instances of it, and a step. *)
Definition pooled_spec : Spec :=
  mkSpec (mkAccount "key" "secret" "us-east-2")
         (mkInstance "ami-1" "" "root" "t3.nano" "" {["team" := "ci"]}
                     (mkNetwork "subnet-1" ["sg-1"] false)
                     (mkDevice "/dev/sda1") (mkDisk "gp2" 32 100)
                     true "" "" "pem")
         "linux" "/tmp/drone" [mkFile "/tmp/drone/home" 448 "" true]
         [] (mkPlatform "linux").

Definition runner : Engine :=
  mkEngine (mkOpts "runner-1" {["linux" := mkPool (Some pooled_spec) 2]}).

Definition build_step : Step :=
  mkStep "sh" ["/tmp/drone/script"] "/tmp/drone" {["CI" := "true"]}
         [mkSecret "TOKEN" "s3cr3t"]
         [mkFile "/tmp/drone/script" 448 "make" false].

(** A cloud whose pool is empty, that creates the instance ["i-new"]
    and on which the command of the step exits with status 17. *)
Definition empty_pool : Script :=
  mkScript false None (inl (platform.mkInstance "i-new" "10.0.0.9"))
           None 1 None (inl (Some (ExitError 17))).

Definition start_world (w : Script) : World Script := mkWorld w [].

End engine.

(** ** livelog: what a run of the writer streams *)

Module livelog_traces.
Import Go livelog.

(** The lines sent to the log service in batches so far, in order. *)
Definition sent (evs : list Event) : list Line :=
  flat_map (fun e => match e with BatchCall _ ls => ls | _ => [] end) evs.

(** A batch call carries at least one line. *)
Definition batch_not_empty (e : Event) : Prop :=
  match e with BatchCall _ ls => ls <> [] | _ => True end.

(** The bytes of the parts, one after the other. *)
Definition joined (parts : list string) : string :=
  foldr String.append EmptyString parts.

Section Streaming.
Context {C : Type} `{Runtime}.

(** A writer that has streamed the parts [parts] since [New]: the lines
    sent in batches and then the pending ones are the first lines built
    for the parts, all of them until the writer is stopped. *)
Definition streams (parts : list string) (s : State C) : Prop :=
  exists rest,
    lines_from 0 parts = (sent (events s) ++ pending (b s)) ++ rest /\
    (closed (b s) = false -> rest = []).

(** What a run keeps of a writer that has been given [parts]. *)
Definition tracks `{Client C} (parts : list string) (s : State C) : Prop :=
  follows parts s /\ streams parts s /\
  Forall batch_not_empty (events s) /\ close (b s) = closed (b s).

End Streaming.


(** A run of a writer: a write, the two steps of the flusher that send
    it, a write that evicts the first record, and the close. *)
Definition busy_run : list Op :=
  [DoWrite "aaaaaa"; DoStart false; DoStart false; DoWrite "bbbbbb"; DoClose].

End livelog_traces.

(** ** engine: the calls a run of the engine makes *)

Module engine_traces.
Import Go engine.

(** The calls to the instance over the remote shell and its file
    transfer, as against the calls to the provisioning API and the entry
    mark of [Setup]. *)
Definition remote (c : Call) : bool :=
  match c with
  | EnterSetup _ | TryPool _ _ | Create _ _ | PlatformDestroy _ _
  | PoolCountFree _ _ | Ping_ _ => false
  | _ => true
  end.

(** The wait of [Run] for the command, and the kill signal. *)
Definition waits (c : Call) : bool :=
  match c with Select _ | Signal _ => true | _ => false end.

(** A remote call that is neither. *)
Definition staging (c : Call) : bool := remote c && negb (waits c).

Section Shapes.
Context {W Conn Ftp Sess Fh Out : Type} `{Cloud W Conn Ftp Sess Fh Out}.

(** How [Run] ends, with the result [r] and the last calls [post]: on a
    failure before the command, with no state and an error; when the
    command is done, with its state and its error, after the wait; when
    the context is done first, with the error of the context, after the
    wait and the kill signal.  [tail] are the deferred closes. *)
Definition ends (step : Step) (output : Out) (tail : list Call)
           (r : option State * option error) (post : list Call) : Prop :=
  (post = [] /\ r.1 = None /\ is_Some r.2) \/
  (exists (session : Sess) env1 err,
      (session_Select session output (command_line step) env1).1 = inl err /\
      r = (Some (exit_state err), err) /\
      post = Select (command_line step) :: tail) \/
  (exists (session : Sess) env1 ctxErr,
      (session_Select session output (command_line step) env1).1 = inr ctxErr /\
      r = (None, Some ctxErr) /\
      post = Select (command_line step) :: Signal "KILL" :: tail).

(** Whenever [m] returns, its calls are staging calls and then an end
    of [Run]. *)
Definition shaped (step : Step) (output : Out) (tail : list Call)
           (m : M (World W) (option State * option error)) : Prop :=
  forall w r w',
    m w = Some (r, w') ->
    exists pre post,
      calls w' = calls w ++ pre ++ post /\
      Forall (fun c => staging c = true) pre /\
      ends step output tail r post.

End Shapes.

(** A cloud on which the context is done before the command of the
    step, and a spec that uses no pool, for Windows. *)
Definition cancelled : Script :=
  mkScript false None (inl (platform.mkInstance "i-new" "10.0.0.9"))
           None 1 None (inr (errors_New "context canceled")).

Definition windows_spec : Spec :=
  mkSpec (mkAccount "key" "secret" "us-east-2")
         (mkInstance "ami-2" "" "Administrator" "t3.large" "" ∅
                     (mkNetwork "subnet-1" ["sg-1"] false)
                     (mkDevice "/dev/sda1") (mkDisk "gp2" 64 100)
                     false "" "" "pem")
         "windows" "C:/drone"
         [mkFile "C:/drone/home" 448 "" true;
          mkFile "C:/drone/netrc" 384 "machine github.com" false]
         [mkVolume (mkEmptyDir "C:/drone/cache")] (mkPlatform "windows").

(** The calls of a [mkdir] and of an [upload] that return no error. *)
Definition made (path : string) (mode : Z) : list Call :=
  [MkdirAll path; Chmod path mode].

Definition uploaded (path data : string) (mode : Z) : list Call :=
  [SftpCreate path; FileWrite data; FileChmod mode; FileClose].

(** The calls that build the environment of [spec] on the instance:
    the workspace, the folders, the files, the folders of the temporary
    volumes. *)
Definition staged (spec : Spec) : list Call :=
  made (Root spec) 511 ++
  flat_map (fun file => if IsDir file then made (Path file) (Mode file) else [])
           (Files spec) ++
  flat_map (fun file => if IsDir file then []
                        else uploaded (Path file) (Data file) (Mode file))
           (Files spec) ++
  flat_map (fun volume => if String.eqb (EmptyDir_ID (EmptyDir volume)) "" then []
                          else made (EmptyDir_ID (EmptyDir volume)) 511)
           (Volumes spec).

(** The script [Run] uploads for a file of the step: the working
    directory, the secrets and the variables, then the data. *)
Definition script `{Cloud W Conn Ftp Sess Fh Out} (spec : Spec) (step : Step)
           (file : File) : string :=
  writeWorkdir (WorkingDir step)
  +:+ writeSecrets (OS (Platform spec)) (Secrets step)
  +:+ writeEnviron (OS (Platform spec)) (Envs step)
  +:+ Data file.

(** The spec but for the id, the ip and the tags of its instance. *)
Definition settled (spec : Spec) : Spec :=
  set_Instance (set_Tags ∅ (set_IP "" (set_ID "" (Instance spec)))) spec.

(** The output of [writeEnviron] for the entries [kvs], in their
    order. *)
Definition export_lines `{Cloud W Conn Ftp Sess Fh Out} (os : string)
           (kvs : list (string * string)) : string :=
  foldr (fun kv acc => writeEnv os kv.1 kv.2 +:+ acc) "" kvs.

(** A spec of a pool the runner does not keep, and a runner whose pool
    has no spec. *)
Definition stray_spec : Spec :=
  mkSpec (Account pooled_spec) (Instance pooled_spec) "macos"
         (Root pooled_spec) (Files pooled_spec) (Volumes pooled_spec)
         (Platform pooled_spec).


End engine_traces.

(** * Properties *)

(** ** The Go prelude *)

Module Go_facts.
Import Go.

Lemma int_wrap_id z : int_min <= z <= int_max -> int_wrap z = z.
Proof.
  unfold int_wrap, int_min, int_max. intros Hz.
  rewrite Z.mod_small; lia.
Qed.

Lemma int_wrap_succ z : int_wrap (int_wrap z + 1) = int_wrap (z + 1).
Proof.
  unfold int_wrap.
  replace ((z + 2 ^ 63) mod 2 ^ 64 - 2 ^ 63 + 1 + 2 ^ 63)
    with ((z + 2 ^ 63) mod 2 ^ 64 + 1) by lia.
  rewrite Zplus_mod_idemp_l. f_equal. f_equal. lia.
Qed.

Lemma len_nonneg s : 0 <= len s.
Proof. unfold len. lia. Qed.

Lemma len_String a s : len (String a s) = 1 + len s.
Proof. unfold len. cbn [String.length]. lia. Qed.

Lemma SplitAfter_not_nil s c : SplitAfter s c <> [].
Proof.
  destruct s as [|a s]; cbn; [done|].
  destruct (Ascii.eqb a c); [done|]. by destruct (SplitAfter s c).
Qed.

Lemma SplitAfter_len s c :
  Forall (fun part => len part <= len s) (SplitAfter s c).
Proof.
  induction s as [|a s IH]; cbn [SplitAfter].
  - constructor; [lia | constructor].
  - rewrite len_String. destruct (Ascii.eqb a c).
    + constructor.
      * rewrite len_String. pose proof (len_nonneg s). unfold len at 1. cbn. lia.
      * eapply Forall_impl; [exact IH|]. cbn. intros; lia.
    + destruct (SplitAfter s c) as [|hd tl]; [constructor; [rewrite len_String; unfold len at 1; cbn; pose proof (len_nonneg s); lia|constructor]|].
      inversion IH as [|? ? Hhd Htl]; subst.
      constructor; [rewrite len_String; lia|].
      eapply Forall_impl; [exact Htl|]. cbn. intros; lia.
Qed.

Lemma bind_Some {S A B} (m : M S A) (k : A -> M S B) s a s' :
  m s = Some (a, s') -> bind m k s = k a s'.
Proof. unfold bind. by intros ->. Qed.

Lemma bind_None {S A B} (m : M S A) (k : A -> M S B) s :
  m s = None -> bind m k s = None.
Proof. unfold bind. by intros ->. Qed.
End Go_facts.

(** ** The livelog writer *)

Module livelog_facts.
Import Go Go_facts livelog.

Lemma total_cons x l : total (x :: l) = len (Message x) + total l.
Proof. reflexivity. Qed.

Lemma total_app l1 l2 : total (l1 ++ l2) = total l1 + total l2.
Proof.
  induction l1 as [|x l1 IH]; [reflexivity|].
  rewrite <- app_comm_cons, !total_cons, IH. lia.
Qed.

Lemma total_nonneg l : 0 <= total l.
Proof.
  induction l as [|x l IH]; [done|].
  rewrite total_cons. pose proof (len_nonneg (Message x)). lia.
Qed.

Section Facts.
Context {C : Type} `{Client C} `{Runtime}.
Local Open Scope go_scope.

(** The eviction loop keeps every field but [size], [history] and the
    two marks of a stopped writer; what it drops is the front of the
    history. *)
Lemma evict_frame n h : forall w w',
  evict n w h = Some w' -> history w = h ->
  key w' = key w /\ num w' = num w /\ limit w' = limit w /\
  pending w' = pending w /\ ready w' = ready w /\
  (exists evicted, h = evicted ++ history w') /\
  (closed w' = false -> w' = w) /\
  (closed w = true -> closed w' = true).
Proof.
  induction h as [|l h IH]; intros w w' Hev Hh; cbn [evict] in Hev.
  - destruct (int_add (size w) n >? limit w); [done|].
    injection Hev as <-. split_and!; auto. exists []. by rewrite Hh.
  - destruct (int_add (size w) n >? limit w).
    + apply IH in Hev; [|reflexivity].
      destruct Hev as (Hk & Hn & Hl & Hp & Hr & [ev Hev] & Hc & Hc').
      assert (closed w' = true) as Hw'
        by (apply Hc'; destruct (closed w) eqn:E; cbn; [exact E|reflexivity]).
      split_and!; try (destruct (closed w); assumption).
      * exists (l :: ev). by rewrite Hev at 1.
      * intros Hf. by rewrite Hw' in Hf.
      * done.
    + injection Hev as <-. split_and!; auto. exists []. by rewrite Hh.
Qed.

(** With a tracked size that is the size of the history, within a
    limit the block fits under, the loop ends exactly when the block
    is no longer than the limit; it panics otherwise. *)
Lemma evict_sound n h : forall w,
  history w = h -> size w = total h -> size w <= limit w ->
  0 <= n -> limit w + n <= int_max ->
  if n >? limit w then evict n w h = None
  else exists w', evict n w h = Some w' /\
                  size w' = total (history w') /\ size w' + n <= limit w'.
Proof.
  induction h as [|l h IH]; intros w Hh Hs Hle Hn Hfit; cbn [evict].
  - cbn in Hs.
    assert (int_add (size w) n = n) as ->
      by (unfold int_add; rewrite int_wrap_id;
          unfold int_min, int_max in *; lia).
    destruct (n >? limit w) eqn:E; [done|].
    exists w. rewrite Hh. cbn. split; [done|]. split; [done|]. lia.
  - pose proof (total_nonneg h) as Hh0.
    pose proof (len_nonneg (Message l)) as Hl0.
    rewrite total_cons in Hs.
    assert (int_add (size w) n = size w + n) as ->
      by (unfold int_add; rewrite int_wrap_id;
          unfold int_min, int_max in *; lia).
    destruct (size w + n >? limit w) eqn:E.
    + set (w1 := if closed w then w else set_closed w).
      assert (Hs1 : size w1 = size w) by (subst w1; by destruct (closed w)).
      assert (Hl1 : limit w1 = limit w) by (subst w1; by destruct (closed w)).
      rewrite Hs1.
      assert (int_sub (size w) (len (Message l)) = size w - len (Message l))
        as -> by (unfold int_sub; rewrite int_wrap_id;
                  unfold int_min, int_max in *; lia).
      specialize (IH (set_history h (set_size (size w - len (Message l)) w1))).
      cbn [limit set_history set_size size history] in IH. rewrite Hl1 in IH.
      apply IH; try done; lia.
    + assert ((n >? limit w) = false) as -> by lia.
      exists w. rewrite Hh, total_cons. split; [done|]. split; [done|]. lia.
Qed.

Lemma write_part_eq p part (s : State C) :
  write_part p part s =
  match evict (len p) (b s) (history (b s)) with
  | None => None
  | Some w =>
      let line := mkLine (num (b s)) part (time_Now (clock s)) "info" in
      let w2 := set_num (int_add (num w) 1)
                        (set_size (int_add (size w) (len part)) w) in
      Some (tt, mkState
                  (set_history (history w ++ [line])
                     (if closed w then w2
                      else set_pending (pending w ++ [line]) w2))
                  (svc s) (S (clock s)) (flusher s) (events s))
  end.
Proof.
  unfold write_part, bind, gets, Now, evict_loop, upd, modify, stopped, ret. cbn.
  destruct (evict (len p) (b s) (history (b s))) as [w|]; [|done]. cbn.
  by destruct (closed w).
Qed.

Lemma lines_from_app n l1 l2 :
  lines_from n (l1 ++ l2) = lines_from n l1 ++ lines_from (n + length l1) l2.
Proof.
  revert n. induction l1 as [|m l1 IH]; intros n; cbn [lines_from app length].
  - by rewrite Nat.add_0_r.
  - rewrite IH. do 3 f_equal. lia.
Qed.

Lemma write_part_sound p part (s : State C) :
  sound (b s) -> fits (limit (b s)) p -> len part <= len p ->
  if len p >? limit (b s) then write_part p part s = None
  else exists s', write_part p part s = Some (tt, s') /\
                  sound (b s') /\ limit (b s') = limit (b s).
Proof.
  intros (Hsz & Hle & Hpl & Hps) Hfit Hpart. rewrite write_part_eq.
  pose proof (len_nonneg p) as Hp0. pose proof (len_nonneg part) as Hq0.
  pose proof (evict_sound (len p) (history (b s)) (b s) eq_refl Hsz Hle Hp0 Hfit)
    as Hev.
  destruct (len p >? limit (b s)); [by rewrite Hev|].
  destruct Hev as (w & Hev & Hsw & Hlw). rewrite Hev.
  apply evict_frame in Hev; [|reflexivity].
  destruct Hev as (_ & _ & Hl & Hp & _ & _ & Hc & _).
  eexists. split; [reflexivity|]. cbn [b].
  pose proof (total_nonneg (history w)) as Hh0.
  unfold fits in Hfit.
  assert (int_add (size w) (len part) = size w + len part) as Hadd
    by (unfold int_add; rewrite int_wrap_id;
        unfold int_min, int_max in *; lia).
  assert (total [mkLine (num (b s)) part (time_Now (clock s)) "info"]
          = len part) as Hone by (cbn; lia).
  destruct (closed w) eqn:Hcw; unfold sound;
    cbn [b size limit pending history closed
         set_history set_num set_size set_pending];
    rewrite Hadd, ?total_app, Hone, Hcw, Hl, Hp.
  - split_and!; try done; lia.
  - rewrite (Hc eq_refl) in *. specialize (Hps Hcw).
    split_and!; try done; lia.
Qed.

Lemma write_part_follows parts p part (s s' : State C) :
  follows parts s -> write_part p part s = Some (tt, s') ->
  follows (parts ++ [part]) s'.
Proof.
  intros (Hn & Hck & [ev Hev] & Hall). rewrite write_part_eq.
  destruct (evict (len p) (b s) (history (b s))) as [w|] eqn:E; [|done].
  intros [= <-]. apply evict_frame in E; [|reflexivity].
  destruct E as (_ & Hnw & _ & _ & _ & [ev' Hev'] & Hc & _).
  assert (Hline : lines_from 0 (parts ++ [part]) =
                  lines_from 0 parts ++
                  [mkLine (num (b s)) part (time_Now (clock s)) "info"]).
  { rewrite lines_from_app. cbn [lines_from]. by rewrite Nat.add_0_l, Hn, Hck. }
  unfold follows. rewrite Hline, length_app. cbn [length].
  split_and!.
  - destruct (closed w); cbn; rewrite Hnw, Hn; unfold int_add;
      rewrite int_wrap_succ; f_equal; lia.
  - cbn. lia.
  - exists (ev ++ ev'). rewrite Hev, Hev'.
    destruct (closed w); cbn; by rewrite <- !app_assoc.
  - destruct (closed w) eqn:Hcw; cbn; rewrite Hcw; [done|]. intros _.
    rewrite (Hc eq_refl) in *. by rewrite Hall.
Qed.

Lemma split_not_nil p : split p <> [].
Proof.
  unfold split. destruct (Contains (TrimSuffix p LF) LF); [|done].
  apply SplitAfter_not_nil.
Qed.

Lemma split_len p : Forall (fun part => len part <= len p) (split p).
Proof.
  unfold split. destruct (Contains (TrimSuffix p LF) LF).
  - apply SplitAfter_len.
  - constructor; [lia|constructor].
Qed.

Lemma parts_sound p parts : forall s : State C,
  sound (b s) -> fits (limit (b s)) p ->
  Forall (fun part => len part <= len p) parts ->
  if len p >? limit (b s)
  then parts <> [] -> for_range parts (write_part p) s = None
  else exists s', for_range parts (write_part p) s = Some (tt, s') /\
                  sound (b s') /\ limit (b s') = limit (b s) /\
                  events s' = events s /\ svc s' = svc s /\
                  flusher s' = flusher s /\ key (b s') = key (b s).
Proof.
  induction parts as [|part parts IH]; intros s Hs Hfit Hall.
  - destruct (len p >? limit (b s)); [done|]. by exists s.
  - inversion Hall as [|? ? Hpart Hrest]; subst.
    pose proof (write_part_sound p part s Hs Hfit Hpart) as Hw.
    destruct (len p >? limit (b s)) eqn:E; cbn [for_range]; unfold bind at 1.
    + intros _. by rewrite Hw.
    + destruct Hw as (s1 & Hw & Hs1 & Hl1). rewrite Hw.
      specialize (IH s1 Hs1). rewrite Hl1, E in IH.
      destruct (IH Hfit Hrest) as (s' & Hr & Hs' & Hl' & He & Hv & Hf & Hk).
      exists s'. split_and!; try done.
      all: rewrite write_part_eq in Hw;
        destruct (evict (len p) (b s) (history (b s))) as [w|] eqn:Ev; [|done];
        injection Hw as <-; cbn in *; try done.
      apply evict_frame in Ev; [|done]. destruct Ev as (Hkw & _).
      rewrite Hk. by destruct (closed w).
Qed.

Lemma parts_follows p parts : forall done (s s' : State C),
  follows done s -> for_range parts (write_part p) s = Some (tt, s') ->
  follows (done ++ parts) s'.
Proof.
  induction parts as [|part parts IH]; intros done s s' Hf; cbn [for_range].
  - intros [= <-]. by rewrite app_nil_r.
  - unfold bind at 1.
    destruct (write_part p part s) as [[[] s1]|] eqn:E; [|done].
    intros Hr. replace (done ++ part :: parts) with ((done ++ [part]) ++ parts)
      by (by rewrite <- app_assoc).
    eapply IH; [|exact Hr]. by eapply write_part_follows.
Qed.
Lemma Write_sound p (s : State C) :
  sound (b s) -> fits (limit (b s)) p ->
  if len p >? limit (b s) then Write p s = None
  else exists s', Write p s = Some ((len p, None), s') /\
                  sound (b s') /\ limit (b s') = limit (b s) /\
                  events s' = events s ++ [fmt_Print p] /\
                  key (b s') = key (b s).
Proof.
  intros Hs Hfit.
  pose proof (parts_sound p (split p)
                (mkState (b s) (svc s) (clock s) (flusher s)
                         (events s ++ [fmt_Print p]))
                Hs Hfit (split_len p)) as Hl.
  cbn [b] in Hl. unfold Write, bind, emit, modify, upd, ret.
  destruct (len p >? limit (b s)).
  - by rewrite (Hl (split_not_nil p)).
  - destruct Hl as (s' & -> & Hs' & Hl' & He & _ & _ & Hk).
    eexists. split; [reflexivity|]. cbn. by destruct Hs'.
Qed.

Lemma Write_follows done p (s s' : State C) r :
  follows done s -> Write p s = Some (r, s') ->
  follows (done ++ split p) s' /\ r = (len p, None).
Proof.
  intros Hf. unfold Write, bind, emit, modify, upd, ret.
  destruct (for_range (split p) (write_part p) _) as [[[] s1]|] eqn:E; [|done].
  intros [= <- <-]. split; [|done].
  eapply parts_follows in E; [exact E|exact Hf].
Qed.

Lemma flush_spec (s : State C) :
  exists r c',
    flush s =
    Some (r, mkState (set_pending [] (b s)) c' (clock s) (flusher s)
                     (events s ++
                      match pending (b s) with
                      | [] => []
                      | ls => [BatchCall (key (b s)) ls]
                      end)).
Proof.
  unfold flush, bind, copy, clear, gets, upd, modify, call, emit, ret. cbn.
  destruct (pending (b s)) as [|l ls]; cbn.
  - exists None, (svc s). by rewrite app_nil_r.
  - destruct (client_Batch (key (b s)) (l :: ls) (svc s)) as [r c'].
    by exists r, c'.
Qed.

Lemma upload_spec (s : State C) :
  exists r c',
    upload s =
    Some (r, mkState (b s) c' (clock s) (flusher s)
                     (events s ++
                      match encode_lines (history (b s)) "" with
                      | inl data => [UploadCall (key (b s)) data]
                      | inr _ => []
                      end)) /\
    match encode_lines (history (b s)) "" with
    | inl data => (r, c') = client_Upload (key (b s)) data (svc s)
    | inr e => r = Some e /\ c' = svc s
    end.
Proof.
  unfold upload, bind, gets, call, emit, modify, ret. cbn.
  destruct (encode_lines (history (b s)) "") as [data|e]; cbn.
  - destruct (client_Upload (key (b s)) data (svc s)) as [r c'].
    by exists r, c'.
  - exists (Some e), (svc s). rewrite app_nil_r. by destruct s.
Qed.

(** What one call of [Close] does. *)
Lemma Close_spec (s : State C) :
  exists err c' errc,
    Close s =
    Some (err,
          mkState (if closed (b s) then b s
                   else set_pending [] (set_closed (b s)))
                  c' (clock s) (flusher s)
                  (events s ++
                   (if closed (b s) then []
                    else match pending (b s) with
                         | [] => []
                         | ls => [BatchCall (key (b s)) ls]
                         end) ++
                   match encode_lines (history (b s)) "" with
                   | inl data => [UploadCall (key (b s)) data]
                   | inr _ => []
                   end ++
                   diag "could not upload logs: " err ++
                   [CloseCall (key (b s))] ++
                   diag "failed to close log stream: " errc)) /\
    match encode_lines (history (b s)) "" with
    | inl data =>
        closed (b s) = true -> err = fst (client_Upload (key (b s)) data (svc s))
    | inr e => err = Some e
    end.
Proof.
  assert (Hstop : stop s =
            Some (negb (closed (b s)),
                  if closed (b s) then s
                  else mkState (set_closed (b s)) (svc s) (clock s)
                               (flusher s) (events s))).
  { unfold stop, bind, gets, upd, modify, ret. by destruct (closed (b s)). }
  unfold Close. rewrite (bind_Some _ _ _ _ _ Hstop).
  destruct (closed (b s)) eqn:Hc; cbn [negb].
  - rewrite (bind_Some _ _ s tt s eq_refl).
    destruct (upload_spec s) as (r & c1 & Hup & Hr).
    rewrite (bind_Some _ _ _ _ _ Hup).
    destruct (client_Close (key (b s)) c1) as [rc c2] eqn:Hcl.
    exists r, c2, rc. split.
    + destruct r, rc; unfold bind, gets, call, emit, modify, ret; cbn;
        rewrite Hcl; cbn; rewrite <- ?app_assoc; cbn; reflexivity.
    + destruct (encode_lines (history (b s)) ""); [|tauto].
      intros _. by rewrite <- Hr.
  - destruct (flush_spec (mkState (set_closed (b s)) (svc s) (clock s)
                                  (flusher s) (events s)))
      as (r0 & c0 & Hfl).
    pose proof (bind_Some flush (fun _ => ret tt) _ _ _ Hfl) as Hfl'.
    unfold ret at 1 in Hfl'.
    rewrite (bind_Some _ _ _ _ _ Hfl').
    cbn [b svc clock flusher events set_closed set_pending pending key history].
    match goal with |- context [bind upload _ ?st] =>
      destruct (upload_spec st) as (r & c1 & Hup & Hr) end.
    rewrite (bind_Some _ _ _ _ _ Hup).
    destruct (client_Close (key (b s)) c1) as [rc c2] eqn:Hcl.
    exists r, c2, rc. split.
    + destruct r, rc; unfold bind, gets, call, emit, modify, ret; cbn;
        rewrite Hcl; cbn; rewrite <- ?app_assoc; cbn; reflexivity.
    + cbn in Hr. destruct (encode_lines (history (b s)) ""); [done|tauto].
Qed.

Lemma Close_calm (s : State C) :
  exists err s', Close s = Some (err, s') /\ calm s s' /\
                 closed (b s') = true.
Proof.
  destruct (Close_spec s) as (err & c' & errc & -> & _).
  eexists _, _. split; [reflexivity|]. unfold calm.
  destruct (closed (b s)) eqn:Hc; cbn; rewrite ?Hc; split_and!; auto.
Qed.

Lemma start_calm pick (s : State C) :
  exists s', start pick s = Some (tt, s') /\ calm s s'.
Proof.
  unfold start. rewrite (bind_Some get _ s s s eq_refl).
  destruct (flusher s).
  - destruct (close (b s) && (pick || negb (ready (b s)))).
    + eexists. split; [reflexivity|]. unfold calm; cbn. split_and!; auto.
    + destruct (ready (b s)).
      * eexists. split; [reflexivity|]. unfold calm; cbn. split_and!; auto.
      * eexists. split; [reflexivity|]. unfold calm; cbn. split_and!; auto.
  - destruct (close (b s) && pick).
    + eexists. split; [reflexivity|]. unfold calm; cbn. split_and!; auto.
    + destruct (flush_spec s) as (r & c' & Hfl).
      rewrite (bind_Some _ _ _ _ _ Hfl).
      eexists. split; [reflexivity|]. unfold calm; cbn. split_and!; auto.
  - eexists. split; [reflexivity|]. unfold calm. split_and!; auto.
Qed.

Lemma calm_sound (s s' : State C) : calm s s' -> sound (b s) -> sound (b s').
Proof.
  intros (Hn & Hsz & Hl & Hh & Hk & Hck & Hc & Hp) (H1 & H2 & H3 & H4).
  unfold sound. rewrite Hsz, Hl, Hh.
  assert (total (pending (b s')) <= total (pending (b s))) as Hle.
  { destruct Hp as [-> | ->]; [lia|apply total_nonneg]. }
  split_and!; try done; try lia.
  intros Hf. destruct (closed (b s)) eqn:E.
  - rewrite Hc in Hf; done.
  - specialize (H4 eq_refl). lia.
Qed.

Lemma calm_follows parts (s s' : State C) :
  calm s s' -> follows parts s -> follows parts s'.
Proof.
  intros (Hn & Hsz & Hl & Hh & Hk & Hck & Hc & Hp) (H1 & H2 & H3 & H4).
  unfold follows. rewrite Hn, Hck, Hh. split_and!; try done.
  intros Hf. destruct (closed (b s)) eqn:E; [|by apply H4].
  rewrite Hc in Hf; done.
Qed.

(** A run keeps the writer sound and its limit, and panics only in a
    write of a block longer than the limit. *)
Lemma run_sound ops : forall s : State C,
  sound (b s) -> Forall (fits (limit (b s))) (blocks ops) ->
  Forall (fun p => len p <= limit (b s)) (blocks ops) ->
  exists s', run ops s = Some (tt, s') /\ sound (b s') /\
             limit (b s') = limit (b s).
Proof.
  induction ops as [|o ops IH]; intros s Hs Hfit Hlen.
  - by exists s.
  - unfold run. cbn [for_range].
    assert (exists s1, exec o s = Some (tt, s1) /\ sound (b s1) /\
                       limit (b s1) = limit (b s)) as (s1 & He & Hs1 & Hl1).
    { destruct o as [p| |pick]; cbn [exec blocks flat_map app] in *.
      - inversion Hfit as [|? ? Hp Hfit']; subst.
        inversion Hlen as [|? ? Hq Hlen']; subst.
        pose proof (Write_sound p s Hs Hp) as Hw.
        assert ((len p >? limit (b s)) = false) as E by lia.
        rewrite E in Hw. destruct Hw as (s1 & Hw & Hs1 & Hl1 & _).
        exists s1. by rewrite (bind_Some _ _ _ _ _ Hw).
      - destruct (Close_calm s) as (err & s1 & Hc & Hcalm & _).
        exists s1. rewrite (bind_Some _ _ _ _ _ Hc). split; [done|].
        split; [by eapply calm_sound|]. by destruct Hcalm as (_ & _ & -> & _).
      - destruct (start_calm pick s) as (s1 & Hst & Hcalm).
        exists s1. split; [done|].
        split; [by eapply calm_sound|]. by destruct Hcalm as (_ & _ & -> & _). }
    rewrite (bind_Some _ _ _ _ _ He).
    destruct (IH s1 Hs1) as (s' & Hr & Hs' & Hl').
    + rewrite Hl1. destruct o; cbn in Hfit; [by inversion Hfit|done|done].
    + rewrite Hl1. destruct o; cbn in Hlen; [by inversion Hlen|done|done].
    + exists s'. split; [exact Hr|]. split; [done|]. by rewrite Hl', Hl1.
Qed.

Lemma run_follows ops : forall parts (s s' : State C),
  follows parts s -> run ops s = Some (tt, s') ->
  follows (parts ++ flat_map split (blocks ops)) s'.
Proof.
  induction ops as [|o ops IH]; intros parts s s' Hf.
  - intros [= <-]. by rewrite app_nil_r.
  - unfold run. cbn [for_range]. unfold bind at 1.
    destruct (exec o s) as [[[] s1]|] eqn:E; [|done]. intros Hr.
    assert (follows (parts ++ flat_map split (blocks [o])) s1) as Hf1.
    { destruct o as [p| |pick]; cbn [exec blocks flat_map app] in *.
      - unfold bind in E. destruct (Write p s) as [[r s2]|] eqn:Ew; [|done].
        injection E as <-. rewrite app_nil_r.
        by destruct (Write_follows _ _ _ _ _ Hf Ew).
      - rewrite app_nil_r. destruct (Close_calm s) as (err & s2 & Hc & Hcalm & _).
        rewrite (bind_Some _ _ _ _ _ Hc) in E. injection E as <-.
        by eapply calm_follows.
      - rewrite app_nil_r. destruct (start_calm pick s) as (s2 & Hst & Hcalm).
        rewrite Hst in E. injection E as <-. by eapply calm_follows. }
    change (o :: ops) with ([o] ++ ops). unfold blocks.
    rewrite flat_map_app, flat_map_app, app_assoc.
    eapply IH; [exact Hf1|exact Hr].
Qed.

Lemma write_part_keeps p part (s s' : State C) :
  write_part p part s = Some (tt, s') ->
  key (b s') = key (b s) /\ limit (b s') = limit (b s).
Proof.
  rewrite write_part_eq.
  destruct (evict (len p) (b s) (history (b s))) as [w|] eqn:E; [|done].
  intros [= <-]. apply evict_frame in E; [|done].
  destruct E as (Hk & _ & Hl & _). by destruct (closed w).
Qed.

Lemma parts_keep p parts : forall s s' : State C,
  for_range parts (write_part p) s = Some (tt, s') ->
  key (b s') = key (b s) /\ limit (b s') = limit (b s) /\
  events s' = events s.
Proof.
  induction parts as [|part parts IH]; intros s s'; cbn [for_range].
  - by intros [= <-].
  - unfold bind at 1.
    destruct (write_part p part s) as [[[] s1]|] eqn:E; [|done].
    intros Hr. apply IH in Hr as (-> & -> & ->).
    apply write_part_keeps in E as Hkl. destruct Hkl as [-> ->].
    split_and!; try done.
    rewrite write_part_eq in E.
    destruct (evict (len p) (b s) (history (b s))); [|done].
    by injection E as <-.
Qed.

Lemma Write_keeps p (s s' : State C) r :
  Write p s = Some (r, s') ->
  key (b s') = key (b s) /\ limit (b s') = limit (b s) /\
  events s' = events s ++ [fmt_Print p].
Proof.
  unfold Write, bind, emit, modify, upd, ret.
  destruct (for_range (split p) (write_part p) _) as [[[] s1]|] eqn:E; [|done].
  intros [= <- <-]. apply parts_keep in E as (Hk & Hl & He).
  cbn in *. by rewrite Hk, Hl, He.
Qed.

Lemma run_keeps ops : forall s s' : State C,
  run ops s = Some (tt, s') ->
  key (b s') = key (b s) /\ limit (b s') = limit (b s).
Proof.
  induction ops as [|o ops IH]; intros s s'.
  - by intros [= <-].
  - unfold run. cbn [for_range]. unfold bind at 1.
    destruct (exec o s) as [[[] s1]|] eqn:E; [|done]. intros Hr.
    apply IH in Hr as [-> ->].
    destruct o as [p| |pick]; cbn [exec] in E.
    + unfold bind in E. destruct (Write p s) as [[r s2]|] eqn:Ew; [|done].
      injection E as <-. by apply Write_keeps in Ew as (-> & -> & _).
    + destruct (Close_calm s) as (err & s2 & Hc & Hcalm & _).
      rewrite (bind_Some _ _ _ _ _ Hc) in E. injection E as <-.
      by destruct Hcalm as (_ & _ & -> & _ & -> & _).
    + destruct (start_calm pick s) as (s2 & Hst & Hcalm).
      rewrite Hst in E. injection E as <-.
      by destruct Hcalm as (_ & _ & -> & _ & -> & _).
Qed.

(** A run returns only with a sound writer: the pending batch and the
    history are within the limit at every return. *)
Lemma run_returns_sound ops : forall s s' : State C,
  sound (b s) -> Forall (fits (limit (b s))) (blocks ops) ->
  run ops s = Some (tt, s') -> sound (b s').
Proof.
  induction ops as [|o ops IH]; intros s s' Hs Hfit.
  - by intros [= <-].
  - unfold run. cbn [for_range]. unfold bind at 1.
    destruct (exec o s) as [[[] s1]|] eqn:E; [|done]. intros Hr.
    assert (sound (b s1) /\ limit (b s1) = limit (b s)) as [Hs1 Hl1].
    { destruct o as [p| |pick]; cbn [exec blocks flat_map app] in *.
      - inversion Hfit as [|? ? Hp Hfit']; subst.
        pose proof (Write_sound p s Hs Hp) as Hw.
        unfold bind in E. destruct (Write p s) as [[r s2]|] eqn:Ew; [|done].
        injection E as <-. destruct (len p >? limit (b s)); [done|].
        destruct Hw as (s3 & Hw & Hs3 & Hl3 & _).
        injection Hw as _ <-. done.
      - destruct (Close_calm s) as (err & s2 & Hc & Hcalm & _).
        rewrite (bind_Some _ _ _ _ _ Hc) in E. injection E as <-.
        split; [by eapply calm_sound|]. by destruct Hcalm as (_ & _ & -> & _).
      - destruct (start_calm pick s) as (s2 & Hst & Hcalm).
        rewrite Hst in E. injection E as <-.
        split; [by eapply calm_sound|]. by destruct Hcalm as (_ & _ & -> & _). }
    eapply IH; [exact Hs1| |exact Hr].
    rewrite Hl1. destruct o; cbn in Hfit; [by inversion Hfit|done|done].
Qed.

Lemma New_state (c : C) id L s :
  SetLimit L (New c id) = Some (tt, s) ->
  follows [] s /\ key (b s) = id /\ limit (b s) = L /\
  (0 <= L -> sound (b s)).
Proof.
  unfold SetLimit, upd, modify, New.
  destruct (client_Open id c) as [err c']. intros [= <-].
  unfold follows, sound. cbn.
  repeat split; try done; try (by exists []); lia.
Qed.

(** X3.  The pending batch and the history stay within the limit, in every
    run of a new writer whose limit is set before the first write:
    whatever the writes, the closes and the steps of the flusher. *)
Lemma pending_within_limit (c : C) id L ops s :
  0 <= L -> Forall (fits L) (blocks ops) ->
  (SetLimit L ;;; run ops) (New c id) = Some (tt, s) ->
  total (pending (b s)) <= L /\ total (history (b s)) <= L.
Proof.
  intros HL Hfit. unfold bind at 1.
  destruct (SetLimit L (New c id)) as [[[] s0]|] eqn:E0; [|done].
  intros Hr. apply New_state in E0 as (_ & _ & Hl & Hs).
  pose proof (run_keeps _ _ _ Hr) as [_ Hl'].
  eapply run_returns_sound in Hr; [|by apply Hs|by rewrite Hl].
  destruct Hr as (Hsz & Hle & Hp & _). rewrite <- Hsz. lia.
Qed.

(** X4.  A write of a block longer than the limit panics, in every state a
    run of a new writer reaches; a write of any other block returns
    the length of the block and no error. *)
Lemma Write_panics_iff (c : C) id L ops s p :
  0 <= L -> Forall (fits L) (blocks ops) -> fits L p ->
  (SetLimit L ;;; run ops) (New c id) = Some (tt, s) ->
  if len p >? L then Write p s = None
  else exists s', Write p s = Some ((len p, None), s').
Proof.
  intros HL Hfit Hp. unfold bind at 1.
  destruct (SetLimit L (New c id)) as [[[] s0]|] eqn:E0; [|done].
  intros Hr. apply New_state in E0 as (_ & _ & Hl & Hs).
  pose proof (run_keeps _ _ _ Hr) as [_ Hl'].
  eapply run_returns_sound in Hr; [|by apply Hs|by rewrite Hl].
  pose proof (Write_sound p s Hr) as Hw. rewrite Hl', Hl in Hw.
  specialize (Hw Hp). destruct (len p >? L); [done|].
  destruct Hw as (s' & Hw & _). by exists s'.
Qed.

(** C1, as amended.  The history is the end of the sequence of all
    records written: the oldest are dropped by the eviction of
    [Write], none is while the writer has not been stopped; and the
    one upload of [Close] carries the history as it then is. *)
Theorem C1_history_keeps_latest_records (c : C) id L ops s :
  (SetLimit L ;;; run ops) (New c id) = Some (tt, s) ->
  (exists evicted, written (blocks ops) = evicted ++ history (b s)) /\
  (closed (b s) = false -> history (b s) = written (blocks ops)) /\
  exists err s',
    Close s = Some (err, s') /\
    forall data, encode_lines (history (b s)) "" = inl data ->
      exists pre post,
        events s' = events s ++ pre ++ UploadCall id data :: post /\
        Forall (fun e => is_Upload e = false) (pre ++ post).
Proof.
  unfold bind at 1.
  destruct (SetLimit L (New c id)) as [[[] s0]|] eqn:E0; [|done].
  intros Hr. apply New_state in E0 as (Hf & Hk & _).
  pose proof (run_keeps _ _ _ Hr) as [Hk' _].
  apply (run_follows _ _ _ _ Hf) in Hr. cbn [app] in Hr.
  destruct Hr as (_ & _ & Hsuf & Hall).
  split; [exact Hsuf|]. split; [exact Hall|].
  destruct (Close_spec s) as (err & c' & errc & Hc & _).
  eexists _, _. split; [exact Hc|].
  intros data Hd. cbn [events]. rewrite Hd, Hk', Hk.
  eexists _, _. split; [reflexivity|].
  apply Forall_app. split.
  - destruct (closed (b s)); [constructor|].
    destruct (pending (b s)); repeat constructor.
  - destruct err, errc; repeat constructor.
Qed.

(** C3, as amended.  Only the flush is guarded by [stop]: of two
    calls of [Close] the first sends at most one batch and the second
    none, but the second uploads the history and closes the stream
    again, and returns the error of its own upload. *)
Theorem C3_second_close_uploads_again (s : State C) :
  exists err1 s1 err2 s2 errc first,
    Close s = Some (err1, s1) /\ Close s1 = Some (err2, s2) /\
    events s1 = events s ++ first /\
    (length (List.filter is_Batch first) <= 1)%nat /\
    b s2 = b s1 /\
    events s2 =
      events s1 ++
      match encode_lines (history (b s)) "" with
      | inl data => [UploadCall (key (b s)) data]
      | inr _ => []
      end ++
      diag "could not upload logs: " err2 ++
      [CloseCall (key (b s))] ++
      diag "failed to close log stream: " errc /\
    match encode_lines (history (b s)) "" with
    | inl data => err2 = fst (client_Upload (key (b s)) data (svc s1))
    | inr e => err2 = Some e
    end.
Proof.
  destruct (Close_spec s) as (err1 & c1 & errc1 & Hc1 & _).
  match type of Hc1 with _ = Some (_, ?st) => set (s1 := st) in * end.
  assert (closed (b s1) = true) as Hcl
    by (subst s1; cbn; by destruct (closed (b s)) eqn:E).
  assert (history (b s1) = history (b s)) as Hh
    by (subst s1; cbn; by destruct (closed (b s))).
  assert (key (b s1) = key (b s)) as Hk
    by (subst s1; cbn; by destruct (closed (b s))).
  destruct (Close_spec s1) as (err2 & c2 & errc2 & Hc2 & He2).
  rewrite Hcl, Hh, Hk in Hc2, He2. cbn [app] in Hc2.
  eexists err1, s1, err2, _, errc2, _.
  split; [exact Hc1|]. split; [exact Hc2|].
  split; [subst s1; reflexivity|]. split_and!.
  - destruct (closed (b s)); [|destruct (pending (b s))];
      destruct (encode_lines (history (b s)) ""), err1, errc1; cbn; lia.
  - reflexivity.
  - reflexivity.
  - destruct (encode_lines (history (b s)) ""); [by apply He2|done].
Qed.

End Facts.

Lemma append_assoc (s t u : string) : (s +:+ t) +:+ u = s +:+ t +:+ u.
Proof.
  induction s as [|a s IH]; [reflexivity|].
  change ((String a s +:+ t) +:+ u) with (String a ((s +:+ t) +:+ u)).
  by rewrite IH.
Qed.

Lemma TrimSuffix_cons a s c :
  s <> EmptyString -> TrimSuffix (String a s) c = String a (TrimSuffix s c).
Proof. by destruct s. Qed.

Lemma TrimSuffix_newline s : TrimSuffix (s +:+ newline) LF = s.
Proof.
  induction s as [|a s IH]; [reflexivity|].
  change (String a s +:+ newline) with (String a (s +:+ newline)).
  rewrite TrimSuffix_cons, IH; [done|by destruct s].
Qed.

Lemma Contains_app s t c : Contains (s +:+ t) c = Contains s c || Contains t c.
Proof.
  induction s as [|a s IH]; [reflexivity|].
  change (String a s +:+ t) with (String a (s +:+ t)). cbn [Contains].
  destruct (Ascii.eqb a c); [reflexivity|exact IH].
Qed.

Lemma SplitAfter_line l rest :
  Contains l LF = false ->
  SplitAfter (l +:+ newline +:+ rest) LF = (l +:+ newline) :: SplitAfter rest LF.
Proof.
  induction l as [|a l IH]; intros Hl; [reflexivity|].
  cbn in Hl.
  change (String a l +:+ newline +:+ rest)
    with (String a (l +:+ newline +:+ rest)).
  change (String a l +:+ newline) with (String a (l +:+ newline)).
  cbn [SplitAfter].
  destruct (Ascii.eqb a LF); [done|]. by rewrite IH.
Qed.

(** A block of two lines, each ended by its line feed, is split into
    three parts: the two lines and an empty string. *)
Lemma split_two_lines l1 l2 :
  Contains l1 LF = false -> Contains l2 LF = false ->
  split (l1 +:+ newline +:+ l2 +:+ newline) =
  [l1 +:+ newline; l2 +:+ newline; ""].
Proof.
  intros H1 H2. unfold split.
  replace (l1 +:+ newline +:+ l2 +:+ newline)
    with ((l1 +:+ newline +:+ l2) +:+ newline)
    by (by rewrite !append_assoc).
  rewrite TrimSuffix_newline, !Contains_app, H1, H2.
  change (Contains newline LF) with true. cbn [orb].
  rewrite !append_assoc.
  rewrite SplitAfter_line by done.
  pose proof (SplitAfter_line l2 "" H2) as Hlast.
  change (newline +:+ "") with newline in Hlast. by rewrite Hlast.
Qed.

(** *** Runs of a writer of the log service [quiet] *)

Section Examples.
Local Open Scope go_scope.
#[local] Existing Instance plain.

(** C1 as stated fails: with a limit of 10 bytes, the second of two
    writes of 6 bytes evicts the record of the first, which is in the
    history no more, and the upload of [Close] carries the second
    record alone. *)
Lemma C1_evicted_record_is_lost :
  exists s err s',
    (@SetLimit unit 10 ;;;
     @run unit quiet plain [DoWrite "aaaaaa"; DoWrite "bbbbbb"]) fresh
    = Some (tt, s) /\
    (mkLine 0 "aaaaaa" 1 "info" ∈ written ["aaaaaa"; "bbbbbb"]) /\
    (mkLine 0 "aaaaaa" 1 "info" ∉ history (b s)) /\
    @Close unit quiet plain s = Some (err, s') /\
    List.filter is_Upload (events s') = [UploadCall "step" "bbbbbb"].
Proof.
  eexists _, _, _. split; [vm_compute; reflexivity|].
  split; [vm_compute; left|].
  split; [cbn; intros Hin; apply list_elem_of_singleton in Hin; discriminate|].
  split; vm_compute; reflexivity.
Qed.

Lemma C1_history_keeps_latest_records_witness :
  exists s,
    (@SetLimit unit 10 ;;;
     @run unit quiet plain [DoWrite "aaaaaa"; DoWrite "bbbbbb"])
      (@New unit quiet plain tt "step")
    = Some (tt, s) /\
    (exists evicted,
        written (blocks [DoWrite "aaaaaa"; DoWrite "bbbbbb"]) =
        evicted ++ history (b s)) /\
    (closed (b s) = false ->
     history (b s) = written (blocks [DoWrite "aaaaaa"; DoWrite "bbbbbb"])).
Proof.
  eexists. split; [vm_compute; reflexivity|].
  match goal with |- context [history (b ?s)] =>
    assert ((@SetLimit unit 10 ;;;
             @run unit quiet plain [DoWrite "aaaaaa"; DoWrite "bbbbbb"])
              (@New unit quiet plain tt "step") = Some (tt, s)) as Hrun
      by (vm_compute; reflexivity)
  end.
  destruct (@C1_history_keeps_latest_records unit quiet plain tt "step" 10
              [DoWrite "aaaaaa"; DoWrite "bbbbbb"] _ Hrun) as (H1 & H2 & _).
  split; [exact H1|exact H2].
Defined.

(** C2: the loop of [Write] tests the length of the whole block, not
    of the incoming line.  With a limit of 10 bytes, the block of the
    lines ["aaaa\n"] and ["bbbb"] (9 bytes) makes [Write] evict the
    first line for the second and stop the writer, although 5 + 4
    bytes are within the limit; the loop on the length of the line,
    as the specification words it, keeps both lines. *)
Theorem C2_block_length_evicts_the_first_line :
  exists s s_spec,
    (@SetLimit unit 10 ;;; @Write unit plain two_lines) fresh
    = Some ((9, None), s) /\
    map Message (history (b s)) = ["bbbb"] /\
    closed (b s) = true /\
    (@SetLimit unit 10 ;;; @Write_by_line unit plain two_lines) fresh
    = Some ((9, None), s_spec) /\
    map Message (history (b s_spec)) = ["aaaa" +:+ newline; "bbbb"] /\
    closed (b s_spec) = false.
Proof.
  eexists _, _. split; [vm_compute; reflexivity|].
  split; [reflexivity|]. split; [reflexivity|].
  split; [vm_compute; reflexivity|]. split; reflexivity.
Qed.

(** C3 as stated fails: on a new writer whose log service refuses
    uploads, the second [Close] uploads and closes the stream again,
    and returns the error of its upload. *)
Lemma C3_second_close_repeats_upload :
  exists err1 s1 err2 s2,
    @Close unit refusing plain (@New unit refusing plain tt "step")
    = Some (err1, s1) /\
    @Close unit refusing plain s1 = Some (err2, s2) /\
    events s2 =
      events s1 ++
      [UploadCall "step" "";
       fmt_Println "could not upload logs: " (errors_New "refused");
       CloseCall "step"] /\
    err2 = Some (errors_New "refused").
Proof.
  eexists _, _, _, _. split; [vm_compute; reflexivity|].
  split; [vm_compute; reflexivity|]. split; reflexivity.
Qed.

(** C8: a block of two lines, each with its line feed, makes [Write]
    build three records, not two: the two lines, numbered 0 and 1,
    and a third record, numbered 2, with an empty message and no line
    feed. *)
Theorem C8_two_line_block_gives_three_records :
  exists s,
    @Write unit plain two_feeds fresh = Some ((4, None), s) /\
    history (b s) =
      [mkLine 0 ("a" +:+ newline) 1 "info";
       mkLine 1 ("b" +:+ newline) 2 "info";
       mkLine 2 "" 3 "info"] /\
    pending (b s) = history (b s).
Proof.
  eexists. split; [vm_compute; reflexivity|]. split; reflexivity.
Qed.

(** C9: the first write of a block longer than the limit panics: the
    loop of [Write] reads [b.history[0]] of the empty history. *)
Theorem C9_first_write_over_limit_panics :
  (@SetLimit unit 3 ;;; @Write unit plain "hello") fresh = None.
Proof. vm_compute. reflexivity. Qed.

End Examples.

End livelog_facts.

(** ** The engine *)

Module engine_facts.
Import Go Go_facts engine.

Lemma bind_inv {S A B} (m : M S A) (k : A -> M S B) s r s' :
  bind m k s = Some (r, s') ->
  exists a s1, m s = Some (a, s1) /\ k a s1 = Some (r, s').
Proof.
  unfold bind. destruct (m s) as [[a s1]|]; [|done]. intros Hk. by exists a, s1.
Qed.

Section Facts.
Context {W Conn Ftp Sess Fh Out : Type} `{Cloud W Conn Ftp Sess Fh Out}.
Local Open Scope go_scope.

Lemma call_eq {A} (c : Call) (f : W -> A * W) (w : World W) :
  call c f w = Some (fst (f (env w)), mkWorld (snd (f (env w))) (calls w ++ [c])).
Proof. unfold call, bind, emit, modify. cbn. by destruct (f (env w)). Qed.

(** Past a call of a collaborator that comes first: its event is in the
    list of calls, its answer goes to what follows. *)
Ltac after_call := rewrite (bind_Some _ _ _ _ _ (call_eq _ _ _)).

(** *** Calls made, and no panic *)

Lemma emits_ret {A} P (a : A) : emits (W:=W) P (ret a).
Proof. intros w. exists a, w, []. by rewrite app_nil_r. Qed.

Lemma emits_bind {A B} P (m : M (World W) A) (k : A -> M (World W) B) :
  emits P m -> (forall a, emits P (k a)) -> emits P (bind m k).
Proof.
  intros Hm Hk w. destruct (Hm w) as (a & w1 & t1 & Em & Ec & Ht).
  destruct (Hk a w1) as (r & w2 & t2 & Ek & Ec2 & Ht2).
  exists r, w2, (t1 ++ t2). rewrite (bind_Some _ _ _ _ _ Em).
  split; [done|]. split; [by rewrite Ec2, Ec, app_assoc|by apply Forall_app].
Qed.

Lemma emits_emit P c : P c -> emits (W:=W) P (emit c).
Proof. intros Hc w. eexists tt, _, [c]. split; [reflexivity|]. split; [done|]. by constructor. Qed.

Lemma emits_call {A} P c (f : W -> A * W) : P c -> emits P (call c f).
Proof.
  intros Hc w. rewrite call_eq. eexists _, _, [c].
  split; [reflexivity|]. split; [done|]. by constructor.
Qed.

Lemma emits_defer {A B} P (cleanup : M (World W) B) (body : M (World W) A) :
  emits P cleanup -> emits P body -> emits P (defer cleanup body).
Proof.
  intros Hc Hb. unfold defer. apply emits_bind; [done|]. intros r.
  apply emits_bind; [done|]. intros _. apply emits_ret.
Qed.

Lemma emits_check P (m k : M (World W) (option error)) :
  emits P m -> emits P k -> emits P (check m k).
Proof.
  intros Hm Hk. unfold check. apply emits_bind; [done|].
  intros [e|]; [apply emits_ret|done].
Qed.

Lemma emits_for_check {A} P (l : list A) (body : A -> M (World W) (option error)) :
  (forall x, emits P (body x)) -> emits P (for_check l body).
Proof.
  intros Hb. induction l as [|x l IH]; cbn [for_check].
  - apply emits_ret.
  - by apply emits_check.
Qed.

(** The calls of a method, piece by piece. *)
Ltac emits_steps :=
  repeat first
    [ apply emits_ret
    | apply emits_emit; reflexivity
    | apply emits_call; reflexivity
    | apply emits_defer
    | apply emits_check
    | apply emits_for_check; intros ?
    | apply emits_bind; [|intros ?]
    | match goal with
      | |- emits _ (match ?x with _ => _ end) => destruct x
      end ].

Lemma emits_upload client path data mode :
  emits no_Setup (upload client path data mode).
Proof. unfold upload. emits_steps. Qed.

Lemma emits_mkdir client path mode : emits no_Setup (mkdir client path mode).
Proof. unfold mkdir. emits_steps. Qed.

Lemma emits_stage clientftp spec : emits no_Setup (stage clientftp spec).
Proof. unfold stage. emits_steps. Qed.

Lemma emits_create_network client spec :
  emits no_Setup (create_network client spec).
Proof. unfold create_network. emits_steps. Qed.

Lemma emits_configure spec : emits no_Setup (configure spec).
Proof.
  unfold configure. emits_steps.
Qed.

(** *** Setup *)

Lemma reserve_eq spec (w : World W) :
  reserve spec w =
  Some (if UsePool (Instance spec)
        then let a := platform_TryPool (credentials spec) (PoolName spec) (env w) in
             if a.1.1.1.1 then Some (a.1.1.1.2, a.1.1.2) else None
        else None,
        if UsePool (Instance spec)
        then mkWorld (after_pool spec (env w))
                     (calls w ++ [TryPool (credentials spec) (PoolName spec)])
        else w).
Proof.
  unfold reserve, after_pool. destruct (UsePool (Instance spec)); [|done].
  after_call.
  by destruct (platform_TryPool _ _ _) as [[[[found id] ip] poolErr] env1].
Qed.

(** What [provision] does: the tags are written before the instance
    is asked for, the identity after it is there, and nothing else. *)
Lemma provision_spec e spec (w : World W) :
  let creds := credentials spec in
  let tagged := set_Instance (set_Tags (add_tags e spec) (Instance spec)) spec in
  let args := provision_args spec (add_tags e spec) in
  exists spec' err w' rest,
    provision e spec w = Some ((spec', err), w') /\
    calls w' = calls w ++ Create creds args :: rest /\
    Forall no_Setup rest /\
    match (platform_Create creds args (env w)).1 with
    | inr createErr => spec' = tagged /\ err = Some createErr
    | inl i =>
        spec' = set_Instance (set_IP (platform.IP i)
                                     (set_ID (platform.ID i) (Instance tagged)))
                             tagged
    end.
Proof.
  intros creds tagged args. unfold provision.
  after_call.
  fold creds. fold tagged. change (provision_args tagged (add_tags e spec)) with args.
  destruct (platform_Create creds args (env w)) as [[i|createErr] env1]; cbn [fst snd].
  - match goal with |- context [configure ?sp] =>
      destruct (emits_configure sp (mkWorld env1 (calls w ++ [Create creds args])))
        as (err & w' & rest & Hc & Hcalls & Hrest) end.
    rewrite (bind_Some _ _ _ _ _ Hc).
    eexists _, err, w', rest. split; [reflexivity|].
    split; [|done]. rewrite Hcalls. cbn [calls]. by rewrite <- app_assoc.
  - eexists _, _, _, []. split; [reflexivity|]. by split_and!.
Qed.

Lemma Setup_eq e spec (w : World W) :
  Setup e spec w =
  match reserve spec (mkWorld (env w) (calls w ++ [EnterSetup spec])) with
  | Some (Some (id, ip), w1) =>
      Some ((set_Instance (set_IP ip (set_ID id (Instance spec))) spec, None), w1)
  | Some (None, w1) => provision e spec w1
  | None => None
  end.
Proof.
  unfold Setup, bind, emit, modify. 
  destruct (reserve spec _) as [[[[id ip]|] w1]|]; reflexivity.
Qed.

(** [Setup] enters once and never panics. *)
Lemma Setup_enters_once e spec (w : World W) :
  exists r w' rest,
    Setup e spec w = Some (r, w') /\
    calls w' = calls w ++ EnterSetup spec :: rest /\
    Forall no_Setup rest.
Proof.
  rewrite Setup_eq, reserve_eq. cbn [env calls].
  destruct (UsePool (Instance spec)).
  - cbn zeta. destruct (platform_TryPool _ _ _).1.1.1.1.
    + eexists _, _, _. split; [reflexivity|]. cbn [calls].
      rewrite <- app_assoc. split; [reflexivity|]. by repeat constructor.
    + match goal with |- context [provision e spec ?w1] =>
        destruct (provision_spec e spec w1)
          as (spec' & err & w' & rest & Hp & Hcalls & Hrest & _) end.
      rewrite Hp. eexists _, _, _. split; [reflexivity|]. rewrite Hcalls.
      cbn [calls]. rewrite <- !app_assoc. split; [reflexivity|].
      by repeat constructor.
  - destruct (provision_spec e spec (mkWorld (env w) (calls w ++ [EnterSetup spec])))
          as (spec' & err & w' & rest & Hp & Hcalls & Hrest & _).
    rewrite Hp. eexists _, _, _. split; [reflexivity|]. rewrite Hcalls.
    cbn [calls]. rewrite <- !app_assoc. split; [reflexivity|].
    by repeat constructor.
Qed.

(** C6.  With [spec.Instance.UsePool], when [platform.TryPool] finds
    an instance, [Setup] binds its id and ip in the spec and returns
    no error after the one call of [TryPool]: [Create] is not called.
    When it finds none, with an error or without, [Setup] goes on
    and calls [Create]. *)
Theorem C6_pool_instance_is_bound_without_Create e spec (w : World W) :
  UsePool (Instance spec) = true ->
  let creds := credentials spec in
  let '(found, id, ip, poolErr, env1) :=
    platform_TryPool creds (PoolName spec) (env w) in
  if found : bool
  then Setup e spec w =
       Some ((set_Instance (set_IP ip (set_ID id (Instance spec))) spec, None),
             mkWorld env1 (calls w ++ [EnterSetup spec;
                                       TryPool creds (PoolName spec)]))
  else exists spec' err w' rest,
         Setup e spec w = Some ((spec', err), w') /\
         calls w' =
           calls w ++
           [EnterSetup spec; TryPool creds (PoolName spec);
            Create creds (provision_args spec (add_tags e spec))] ++ rest.
Proof.
  intros Hpool creds. rewrite Setup_eq, reserve_eq. unfold after_pool.
  rewrite Hpool. cbn [env calls]. cbn zeta. fold creds.
  destruct (platform_TryPool creds (PoolName spec) (env w))
    as [[[[found id] ip] poolErr] env1]. cbn [fst snd].
  destruct found.
  - by rewrite <- app_assoc.
  - match goal with |- context [provision e spec ?w1] =>
      destruct (provision_spec e spec w1)
        as (spec' & err & w' & rest & Hp & Hcalls & _) end.
    exists spec', err, w', rest. split; [exact Hp|].
    rewrite Hcalls. cbn [calls]. by rewrite <- !app_assoc.
Qed.

(** C10.  A [Setup] that takes no instance of a pool returns, and
    leaves the caller's spec as it was but for [Instance.Tags],
    [Instance.ID] and [Instance.IP].  The tags hold the four keys of
    the runner ("status" only for a pool-backed spec) and every other
    entry as before, whatever error is returned; the id and the ip
    are those of the instance created, and are unchanged when
    [Create] fails. *)
Theorem C10_adhoc_Setup_writes_tags_and_identity e spec (w : World W) :
  pool_finds spec (env w) = false ->
  exists spec' err w',
    Setup e spec w = Some ((spec', err), w') /\
    spec' = set_Instance
              (set_IP (IP (Instance spec'))
                 (set_ID (ID (Instance spec'))
                    (set_Tags (Tags (Instance spec')) (Instance spec))))
              spec /\
    Tags (Instance spec') !! "drone" = Some "drone-runner-aws" /\
    Tags (Instance spec') !! "pool" = Some (PoolName spec) /\
    Tags (Instance spec') !! "creator" = Some (RunnerName (opts e)) /\
    Tags (Instance spec') !! "status" =
      (if UsePool (Instance spec) then Some "build in progress"
       else Tags (Instance spec) !! "status") /\
    (forall k, k <> "drone" -> k <> "pool" -> k <> "creator" ->
               k <> "status" ->
               Tags (Instance spec') !! k = Tags (Instance spec) !! k) /\
    match (platform_Create (credentials spec)
             (provision_args spec (add_tags e spec))
             (after_pool spec (env w))).1 with
    | inl i => ID (Instance spec') = platform.ID i /\
               IP (Instance spec') = platform.IP i
    | inr createErr => ID (Instance spec') = ID (Instance spec) /\
                       IP (Instance spec') = IP (Instance spec) /\
                       err = Some createErr
    end.
Proof.
  intros Hfinds. rewrite Setup_eq, reserve_eq. cbn [env calls]. cbn zeta.
  unfold pool_finds in Hfinds.
  assert ((if UsePool (Instance spec)
           then if (platform_TryPool (credentials spec) (PoolName spec)
                      (env w)).1.1.1.1
                then Some ((platform_TryPool (credentials spec) (PoolName spec)
                              (env w)).1.1.1.2,
                           (platform_TryPool (credentials spec) (PoolName spec)
                              (env w)).1.1.2)
                else None
           else None) = None) as ->.
  { destruct (UsePool (Instance spec)); [|done]. cbn in Hfinds. by rewrite Hfinds. }
  match goal with |- context [provision e spec ?w1] =>
    destruct (provision_spec e spec w1)
      as (spec' & err & w' & rest & Hp & _ & _ & Hcreate);
    assert (env w1 = after_pool spec (env w)) as Henv
      by (unfold after_pool; by destruct (UsePool (Instance spec)))
  end.
  rewrite Henv in Hcreate.
  exists spec', err, w'. split; [exact Hp|].
  assert (Htags : forall tags',
             tags' = add_tags e spec ->
             tags' !! "drone" = Some "drone-runner-aws" /\
             tags' !! "pool" = Some (PoolName spec) /\
             tags' !! "creator" = Some (RunnerName (opts e)) /\
             tags' !! "status" =
               (if UsePool (Instance spec) then Some "build in progress"
                else Tags (Instance spec) !! "status") /\
             (forall k, k <> "drone" -> k <> "pool" -> k <> "creator" ->
                        k <> "status" ->
                        tags' !! k = Tags (Instance spec) !! k)).
  { intros tags' ->. unfold add_tags.
    destruct (UsePool (Instance spec)); split_and!;
      try (intros k ? ? ? ?); by simplify_map_eq. }
  destruct ((platform_Create (credentials spec)
               (provision_args spec (add_tags e spec))
               (after_pool spec (env w))).1) as [i|createErr].
  - subst spec'. cbn. split; [by destruct spec|].
    destruct (Htags _ eq_refl) as (? & ? & ? & ? & ?). by split_and!.
  - destruct Hcreate as [-> ->]. cbn. split; [by destruct spec|].
    destruct (Htags _ eq_refl) as (? & ? & ? & ? & ?). by split_and!.
Qed.

(** *** Destroy *)

Lemma filter_no_Setup rest :
  Forall no_Setup rest -> List.filter is_EnterSetup rest = [].
Proof.
  induction 1 as [|c rest Hc _ IH]; [done|]. cbn. by rewrite Hc.
Qed.

(** C7.  [Destroy] returns the error of [platform.Destroy] when it
    fails, after that one call.  When it succeeds [Destroy] returns
    no error, whatever the count of the pool and the [Setup] say, and
    it enters [Setup] once, with the spec of the pool, exactly when
    the spec is pool-backed and the count of free instances is below
    the size of the pool; it does not enter it otherwise.  The pool
    of a pool-backed spec is taken to be configured with its spec. *)
Theorem C7_Destroy_replenishes_once e spec (w : World W) :
  (UsePool (Instance spec) = true ->
   exists template n,
     Pools (opts e) !! PoolName spec = Some (mkPool (Some template) n)) ->
  let creds := credentials spec in
  let instance := platform.mkInstance (ID (Instance spec)) (IP (Instance spec)) in
  let '(destroyErr, env1) := platform_Destroy creds instance (env w) in
  match destroyErr with
  | Some err =>
      Destroy e spec w =
      Some ((e, Some err),
            mkWorld env1 (calls w ++ [PlatformDestroy creds instance]))
  | None =>
      exists e' w' rest,
        Destroy e spec w = Some ((e', None), w') /\
        calls w' = calls w ++ [PlatformDestroy creds instance] ++ rest /\
        List.filter is_EnterSetup rest =
          if UsePool (Instance spec)
          then let '(poolCount, countPoolErr, _) :=
                 platform_PoolCountFree creds (PoolName spec) env1 in
               let pool := default (mkPool None 0)
                                   (Pools (opts e) !! PoolName spec) in
               if poolCount <? PoolSize pool
               then match InstanceSpec pool with
                    | Some template => [EnterSetup template]
                    | None => []
                    end
               else []
          else []
  end.
Proof.
  intros Hpool creds instance. unfold Destroy. fold creds. fold instance.
  after_call. cbn [env calls].
  destruct (platform_Destroy creds instance (env w)) as [[err|] env1];
    cbn [fst snd]; [reflexivity|].
  destruct (UsePool (Instance spec)) eqn:Hup.
  - destruct (Hpool eq_refl) as (template & n & Hlook).
    after_call. cbn [env calls].
    destruct (platform_PoolCountFree creds (PoolName spec) env1)
      as [[poolCount countPoolErr] env2]. cbn [fst snd].
    rewrite Hlook. unfold default. cbn [from_option id InstanceSpec PoolSize].
    destruct (poolCount <? n).
    + match goal with |- context [bind (Setup e template) _ ?w1] =>
        destruct (Setup_enters_once e template w1)
          as ([template' err] & w' & rest & Hs & Hcalls & Hrest) end.
      rewrite (bind_Some _ _ _ _ _ Hs).
      eexists _, w', _. split; [reflexivity|].
      rewrite Hcalls. cbn [calls]. rewrite <- !app_assoc.
      split; [reflexivity|]. cbn. by rewrite filter_no_Setup.
    + eexists _, _, _. split; [reflexivity|]. cbn [calls].
      rewrite <- app_assoc. split; [reflexivity|]. reflexivity.
  - eexists _, _, []. split; [reflexivity|]. split; [|done].
    by rewrite app_nil_r.
Qed.

(** *** Run *)

Lemma defer_inv {A B} (cleanup : M (World W) B) (body : M (World W) A) w r w' :
  defer cleanup body w = Some (r, w') -> exists w1, body w = Some (r, w1).
Proof.
  unfold defer. intros Hd. apply bind_inv in Hd as (a & w1 & Hb & Hk).
  apply bind_inv in Hk as (x & w2 & _ & Hr). injection Hr as <- _. by exists w1.
Qed.

(** When the command is done, [execute] returns the state and the
    error of the command. *)
Lemma execute_done session step output (w : World W) err env1 :
  session_Select session output (command_line step) (env w) = (inl err, env1) ->
  execute session step output w =
  Some ((Some (exit_state err), err),
        mkWorld env1 (calls w ++ [Select (command_line step)])).
Proof.
  intros Hsel. unfold execute.
  after_call. by rewrite Hsel.
Qed.

Lemma execute_inv session step output (w : World W) st err w' :
  execute session step output w = Some ((Some st, err), w') ->
  (session_Select session output (command_line step) (env w)).1 = inl err /\
  st = exit_state err.
Proof.
  unfold execute. after_call.
  destruct (session_Select _ _ _ _).1 as [e|ctxErr].
  - by intros [= <- <- _].
  - intros Hk. apply bind_inv in Hk as (? & ? & _ & Hr). done.
Qed.

(** [Run] returns a state only from [execute]. *)
Lemma Run_inv e spec step output (w : World W) st err w' :
  Run e spec step output w = Some ((Some st, err), w') ->
  exists session w1 w2,
    execute session step output w1 = Some ((Some st, err), w2).
Proof.
  unfold Run. intros Hr.
  apply bind_inv in Hr as ([client|e1] & w1 & _ & Hr); [|done].
  apply defer_inv in Hr as (w2 & Hr).
  apply bind_inv in Hr as ([clientftp|e2] & w3 & _ & Hr); [|done].
  apply defer_inv in Hr as (w4 & Hr).
  apply bind_inv in Hr as ([e3|] & w5 & _ & Hr); [done|].
  apply bind_inv in Hr as ([session|e4] & w6 & _ & Hr); [|done].
  apply defer_inv in Hr as (w7 & Hr). by exists session, w6, w7.
Qed.

(** C4, as amended.  The error [Run] returns next to a state is the
    error the command is done with: a command that fails makes [Run]
    return its error too, beside the exit code in the state. *)
Theorem C4_Run_returns_the_command_error e spec step output (w : World W)
        st err w' :
  Run e spec step output w = Some ((Some st, err), w') ->
  exists session env1,
    (session_Select session output (command_line step) env1).1 = inl err /\
    st = exit_state err.
Proof.
  intros Hr. apply Run_inv in Hr as (session & w1 & w2 & He).
  apply execute_inv in He. by exists session, (env w1).
Qed.

(** C5.  When [Run] returns a state, the command is done with the
    error [Run] returns, and the state has exited, is not killed for
    memory, and has the exit code 0 for no error, the status of an
    exit-status error (17 for the status 17), and 255 for any other
    error. *)
Theorem C5_exit_code_of_the_completed_command e spec step output (w : World W)
        st err w' :
  Run e spec step output w = Some ((Some st, err), w') ->
  (exists session env1,
     (session_Select session output (command_line step) env1).1 = inl err) /\
  Exited st = true /\ OOMKilled st = false /\
  ExitCode st = match err with
                | None => 0
                | Some (ExitError status) => status
                | Some (errors_New _) => 255
                end.
Proof.
  intros Hr. apply Run_inv in Hr as (session & w1 & w2 & He).
  apply execute_inv in He as [Hsel ->]. split; [by exists session, (env w1)|].
  by destruct err as [[status|text]|].
Qed.

End Facts.

(** *** Runs on the scripted cloud *)

Section Examples.
#[local] Existing Instance scripted.

Lemma C4_command_error_is_returned :
  exists w',
    Run runner pooled_spec build_step tt (start_world empty_pool)
    = Some ((Some (mkState 17 true false), Some (ExitError 17)), w') /\
    Some (ExitError 17) <> None.
Proof. eexists. split; [vm_compute; reflexivity|done]. Qed.

Lemma C4_Run_returns_the_command_error_witness :
  exists w',
    Run runner pooled_spec build_step tt (start_world empty_pool)
    = Some ((Some (mkState 17 true false), Some (ExitError 17)), w') /\
    exists session env1,
      (session_Select session tt (command_line build_step) env1).1
      = inl (Some (ExitError 17)) /\
      mkState 17 true false = exit_state (Some (ExitError 17)).
Proof.
  eexists. split; [vm_compute; reflexivity|].
  eapply (C4_Run_returns_the_command_error runner pooled_spec build_step tt
            (start_world empty_pool)).
  vm_compute. reflexivity.
Defined.

Lemma C5_exit_code_of_the_completed_command_witness :
  exists w',
    Run runner pooled_spec build_step tt (start_world empty_pool)
    = Some ((Some (mkState 17 true false), Some (ExitError 17)), w') /\
    ExitCode (mkState 17 true false) = 17.
Proof.
  eexists. split; [vm_compute; reflexivity|].
  eapply (C5_exit_code_of_the_completed_command runner pooled_spec build_step tt
            (start_world empty_pool) (mkState 17 true false)
            (Some (ExitError 17))).
  vm_compute. reflexivity.
Defined.

Lemma C6_pool_instance_is_bound_without_Create_witness :
  UsePool (Instance pooled_spec) = true /\
  exists spec' err w' rest,
    Setup runner pooled_spec (start_world empty_pool) = Some ((spec', err), w') /\
    calls w' =
      calls (start_world empty_pool) ++
      [EnterSetup pooled_spec;
       TryPool (credentials pooled_spec) (PoolName pooled_spec);
       Create (credentials pooled_spec)
              (provision_args pooled_spec (add_tags runner pooled_spec))]
      ++ rest.
Proof.
  split; [reflexivity|].
  exact (C6_pool_instance_is_bound_without_Create runner pooled_spec
           (start_world empty_pool) eq_refl).
Defined.

Lemma C7_Destroy_replenishes_once_witness :
  exists e' w' rest,
    Destroy runner pooled_spec (start_world empty_pool) = Some ((e', None), w') /\
    calls w' =
      calls (start_world empty_pool) ++
      [PlatformDestroy (credentials pooled_spec) (platform.mkInstance "" "")]
      ++ rest /\
    List.filter is_EnterSetup rest = [EnterSetup pooled_spec].
Proof.
  refine (C7_Destroy_replenishes_once runner pooled_spec
            (start_world empty_pool) _).
  intros _. exists pooled_spec, 2. vm_compute. reflexivity.
Defined.

Lemma C10_adhoc_Setup_writes_tags_and_identity_witness :
  pool_finds pooled_spec empty_pool = false /\
  exists spec' err w',
    Setup runner pooled_spec (start_world empty_pool) = Some ((spec', err), w') /\
    Tags (Instance spec') !! "team" = Some "ci" /\
    Tags (Instance spec') !! "status" = Some "build in progress" /\
    ID (Instance spec') = "i-new".
Proof.
  assert (pool_finds pooled_spec empty_pool = false) as Hnone by reflexivity.
  split; [exact Hnone|].
  destruct (C10_adhoc_Setup_writes_tags_and_identity runner pooled_spec
              (start_world empty_pool) Hnone)
    as (spec' & err & w' & Hs & _ & _ & _ & _ & Hstatus & Hother & Hid).
  exists spec', err, w'. split; [exact Hs|].
  split; [by rewrite Hother|]. split; [exact Hstatus|]. exact (proj1 Hid).
Defined.

End Examples.

End engine_facts.

(** ** The livelog writer: what is streamed, sent and uploaded *)

Module livelog_streaming.
Import Go Go_facts livelog livelog_facts livelog_traces.

(** *** split *)

Lemma joined_cons x l : joined (x :: l) = x +:+ joined l.
Proof. reflexivity. Qed.

Lemma append_empty (s : string) : s +:+ "" = s.
Proof.
  induction s as [|a s IH]; [reflexivity|].
  change (String a s +:+ "") with (String a (s +:+ "")). by rewrite IH.
Qed.

Lemma joined_nil_r (s : string) : s +:+ joined [] = s.
Proof. apply append_empty. Qed.

Lemma SplitAfter_joined s c : joined (SplitAfter s c) = s.
Proof.
  induction s as [|a s IH]; [reflexivity|]. cbn [SplitAfter].
  destruct (Ascii.eqb a c).
  - rewrite joined_cons, IH. reflexivity.
  - destruct (SplitAfter s c) as [|hd tl] eqn:E;
      [by apply SplitAfter_not_nil in E|].
    rewrite joined_cons in *.
    change (String a hd +:+ joined tl) with (String a (hd +:+ joined tl)).
    by rewrite IH.
Qed.


(** X1.  The parts of [split], one after the other, are the block: no byte
    is lost, added or moved. *)
Theorem split_joined p : joined (split p) = p.
Proof.
  unfold split. destruct (Contains (TrimSuffix p LF) LF).
  - apply SplitAfter_joined.
  - rewrite joined_cons. apply append_empty.
Qed.

(** No part of [SplitAfter] has a separator but as its last byte, and a
    part without one is the last. *)
Lemma SplitAfter_parts s c :
  Forall (fun part => Contains (TrimSuffix part c) c = false) (SplitAfter s c).
Proof.
  induction s as [|a s IH]; cbn [SplitAfter].
  - by repeat constructor.
  - destruct (Ascii.eqb a c) eqn:E.
    + constructor; [|done].
      cbn [TrimSuffix].
      rewrite E.
      reflexivity.
    + destruct (SplitAfter s c) as [|hd tl]; inversion IH as [|? ? Hhd Htl]; subst.
      * constructor; [|done].
        cbn [TrimSuffix]. rewrite E. cbn [Contains]. by rewrite E.
      * constructor; [|done].
        destruct hd as [|h hd'];
          [cbn [TrimSuffix]; rewrite E; cbn [Contains]; by rewrite E|].
        rewrite TrimSuffix_cons by done. cbn [Contains]. by rewrite E.
Qed.

(** X2.  Every part of [split] is one line: it has no line feed but, at
    most, as its last byte. *)
Theorem split_parts_are_lines p :
  Forall (fun part => Contains (TrimSuffix part LF) LF = false) (split p).
Proof.
  unfold split. destruct (Contains (TrimSuffix p LF) LF) eqn:E.
  - apply SplitAfter_parts.
  - by repeat constructor.
Qed.

Section More.
Context {C : Type} `{Client C} `{Runtime}.
Local Open Scope go_scope.

Ltac batches_ok :=
  repeat first [ apply List.Forall_nil | apply List.Forall_cons; [cbn; done|] ].

Lemma sent_app evs1 evs2 : sent (evs1 ++ evs2) = sent evs1 ++ sent evs2.
Proof. unfold sent. apply flat_map_app. Qed.

Lemma sent_diag text err : sent (diag text err) = [].
Proof. by destruct err. Qed.

Lemma evict_close n h : forall w w',
  evict n w h = Some w' -> close w = closed w -> close w' = closed w'.
Proof.
  induction h as [|l h IH]; intros w w' Hev Hc; cbn [evict] in Hev.
  - destruct (int_add (size w) n >? limit w); [done|]. by injection Hev as <-.
  - destruct (int_add (size w) n >? limit w); [|by injection Hev as <-].
    apply IH in Hev; [done|]. destruct (closed w) eqn:Hcw; cbn; congruence.
Qed.

(** What one round of the loop of [Write] does to the stream. *)
Lemma write_part_effect p part (s s' : State C) :
  write_part p part s = Some (tt, s') ->
  events s' = events s /\ flusher s' = flusher s /\ svc s' = svc s /\
  ready (b s') = ready (b s) /\
  (closed (b s) = true -> closed (b s') = true) /\
  (if closed (b s') then pending (b s') = pending (b s)
   else closed (b s) = false /\
        pending (b s') =
          pending (b s) ++ [mkLine (num (b s)) part (time_Now (clock s)) "info"]) /\
  (close (b s) = closed (b s) -> close (b s') = closed (b s')).
Proof.
  rewrite write_part_eq.
  destruct (evict (len p) (b s) (history (b s))) as [w|] eqn:E; [|done].
  intros [= <-]. pose proof (evict_close _ _ _ _ E) as Hcl.
  apply evict_frame in E; [|done].
  destruct E as (_ & _ & _ & Hp & Hr & _ & Hc & Hc').
  destruct (closed w) eqn:Hcw; [|specialize (Hc eq_refl); subst w];
    cbn; rewrite ?Hcw; split_and!; try done; try congruence.
Qed.

Lemma start_spec pick (s : State C) :
  exists s',
    start pick s = Some (tt, s') /\ calm s s' /\
    (close (b s') = close (b s) /\ closed (b s') = closed (b s)) /\
    (events s' = events s /\ pending (b s') = pending (b s) \/
     flusher s = Debouncing /\
     events s' = events s ++
                 match pending (b s) with
                 | [] => []
                 | ls => [BatchCall (key (b s)) ls]
                 end /\
     pending (b s') = []).
Proof.
  unfold start. rewrite (bind_Some get _ s s s eq_refl).
  destruct (flusher s) eqn:Hf.
  - destruct (close (b s) && (pick || negb (ready (b s)))).
    + eexists. split; [reflexivity|]. unfold calm; cbn. split_and!; auto.
    + destruct (ready (b s)).
      * eexists. split; [reflexivity|]. unfold calm; cbn. split_and!; auto.
      * eexists. split; [reflexivity|]. unfold calm; cbn. split_and!; auto.
  - destruct (close (b s) && pick).
    + eexists. split; [reflexivity|]. unfold calm; cbn. split_and!; auto.
    + destruct (flush_spec s) as (r & c' & Hfl).
      rewrite (bind_Some _ _ _ _ _ Hfl).
      eexists. split; [reflexivity|]. unfold calm; cbn. split_and!; auto.
  - eexists. split; [reflexivity|]. unfold calm. split_and!; auto.
Qed.

(** [Close] and a step of the flusher move lines from the pending batch
    to the batches sent, and nothing else. *)
Lemma Close_stream (s : State C) :
  exists err s',
    Close s = Some (err, s') /\ calm s s' /\ closed (b s') = true /\
    sent (events s') ++ pending (b s') = sent (events s) ++ pending (b s) /\
    (Forall batch_not_empty (events s) -> Forall batch_not_empty (events s')).
Proof.
  destruct (Close_calm s) as (err & s' & Hc & Hcalm & Hcl).
  exists err, s'. split; [exact Hc|]. split; [exact Hcalm|]. split; [exact Hcl|].
  destruct (Close_spec s) as (err0 & c' & errc & Hc0 & _).
  rewrite Hc in Hc0. injection Hc0 as -> ->. cbn [events b].
  split.
  - rewrite !sent_app, !sent_diag.
    assert (sent match encode_lines (history (b s)) "" with
                 | inl data => [UploadCall (key (b s)) data]
                 | inr _ => []
                 end = []) as -> by (by destruct (encode_lines _ _)).
    destruct errc, (closed (b s)); [|destruct (pending (b s))|
                                    |destruct (pending (b s))]; cbn;
      by rewrite <- ?app_assoc, ?app_nil_r.
  - intros Hall. rewrite !Forall_app. unfold diag.
    split_and!; try done;
      repeat match goal with
             | |- context [match ?x with _ => _ end] => destruct x
             | |- context [if ?x then _ else _] => destruct x
             end; batches_ok.
Qed.

Lemma start_stream pick (s : State C) :
  exists s',
    start pick s = Some (tt, s') /\ calm s s' /\
    sent (events s') ++ pending (b s') = sent (events s) ++ pending (b s) /\
    (Forall batch_not_empty (events s) -> Forall batch_not_empty (events s')).
Proof.
  destruct (start_spec pick s) as (s' & Hs & Hcalm & _ & Hev).
  exists s'. split; [exact Hs|]. split; [exact Hcalm|].
  destruct Hev as [[-> ->]|(_ & -> & ->)]; [done|].
  rewrite sent_app, app_nil_r. split.
  - by destruct (pending (b s)); cbn; rewrite ?app_nil_r.
  - intros Hall. apply Forall_app. split; [done|].
    destruct (pending (b s)); batches_ok.
Qed.

Lemma write_part_tracks done p part (s s' : State C) :
  tracks done s -> write_part p part s = Some (tt, s') ->
  tracks (done ++ [part]) s'.
Proof.
  intros (Hf & (rest & Hrest & Hopen) & Hb & Hc) Hw.
  pose proof (write_part_follows _ _ _ _ _ Hf Hw) as Hf'.
  apply write_part_effect in Hw as (He & _ & _ & _ & Hmono & Hp & Hcl).
  split; [exact Hf'|]. split; [|split; [by rewrite He|by apply Hcl]].
  destruct Hf as (Hn & Hck & _ & _).
  assert (Hline : lines_from 0 (done ++ [part]) =
                  lines_from 0 done ++
                  [mkLine (num (b s)) part (time_Now (clock s)) "info"]).
  { rewrite lines_from_app. cbn [lines_from]. by rewrite Nat.add_0_l, Hn, Hck. }
  unfold streams. rewrite Hline, He.
  destruct (closed (b s')) eqn:Hc'.
  - eexists (rest ++ [_]). split; [|done]. by rewrite Hp, Hrest, <- !app_assoc.
  - destruct Hp as [Hs ->]. rewrite (Hopen Hs), app_nil_r in Hrest.
    exists []. split; [|done]. by rewrite Hrest, !app_nil_r, <- app_assoc.
Qed.

Lemma parts_tracks p parts : forall done (s s' : State C),
  tracks done s -> for_range parts (write_part p) s = Some (tt, s') ->
  tracks (done ++ parts) s'.
Proof.
  induction parts as [|part parts IH]; intros done s s' Ht; cbn [for_range].
  - intros [= <-]. by rewrite app_nil_r.
  - unfold bind at 1.
    destruct (write_part p part s) as [[[] s1]|] eqn:E; [|done].
    intros Hr. replace (done ++ part :: parts) with ((done ++ [part]) ++ parts)
      by (by rewrite <- app_assoc).
    eapply IH; [|exact Hr]. by eapply write_part_tracks.
Qed.

Lemma Write_tracks done p (s s' : State C) r :
  tracks done s -> Write p s = Some (r, s') -> tracks (done ++ split p) s'.
Proof.
  intros (Hf & Hs & Hb & Hc). unfold Write, bind, emit, modify, upd, ret.
  destruct (for_range (split p) (write_part p) _) as [[[] s1]|] eqn:E; [|done].
  intros [= <- <-].
  eapply parts_tracks in E.
  - destruct E as (Hf1 & Hs1 & Hb1 & Hc1). by split_and!.
  - split_and!; try done.
    + destruct Hs as (rest & Hrest & Hopen). exists rest.
      cbn [events b]. rewrite sent_app. cbn. by rewrite app_nil_r.
    + cbn [events]. apply Forall_app. split; [done|]. batches_ok.
Qed.

Lemma calm_tracks done (s s' : State C) :
  calm s s' ->
  sent (events s') ++ pending (b s') = sent (events s) ++ pending (b s) ->
  (Forall batch_not_empty (events s) -> Forall batch_not_empty (events s')) ->
  close (b s') = closed (b s') ->
  tracks done s -> tracks done s'.
Proof.
  intros Hcalm Hsent Hbatch Hcl (Hf & (rest & Hrest & Hopen) & Hb & Hc).
  split; [by eapply calm_follows|].
  split; [|split; [by apply Hbatch|exact Hcl]].
  exists rest. rewrite Hsent. split; [done|].
  intros Hf'. apply Hopen. destruct Hcalm as (_ & _ & _ & _ & _ & _ & Hmono & _).
  destruct (closed (b s)); [|done]. by rewrite Hmono in Hf'.
Qed.

Lemma Close_tracks done (s s' : State C) err :
  tracks done s -> Close s = Some (err, s') -> tracks done s'.
Proof.
  intros Ht Hc. destruct (Close_stream s) as (err0 & s0 & Hc0 & Hcalm & Hcl & Hs & Hb).
  rewrite Hc in Hc0. injection Hc0 as <- <-.
  eapply calm_tracks; try done.
  destruct (Close_spec s) as (e1 & c1 & e2 & Hc1 & _). rewrite Hc in Hc1.
  injection Hc1 as _ ->. destruct Ht as (_ & _ & _ & Hclose).
  cbn [b]. destruct (closed (b s)) eqn:E; cbn; congruence.
Qed.

Lemma start_tracks done pick (s s' : State C) :
  tracks done s -> start pick s = Some (tt, s') -> tracks done s'.
Proof.
  intros Ht Hst. destruct (start_stream pick s) as (s0 & Hs0 & Hcalm & Hs & Hb).
  rewrite Hst in Hs0. injection Hs0 as <-.
  eapply calm_tracks; try done.
  destruct (start_spec pick s) as (s1 & Hs1 & _ & [Hcl1 Hcl2] & _).
  rewrite Hst in Hs1. injection Hs1 as <-.
  destruct Ht as (_ & _ & _ & Hclose). congruence.
Qed.

Lemma run_tracks ops : forall done (s s' : State C),
  tracks done s -> run ops s = Some (tt, s') ->
  tracks (done ++ flat_map split (blocks ops)) s'.
Proof.
  induction ops as [|o ops IH]; intros done s s' Ht.
  - intros [= <-]. by rewrite app_nil_r.
  - unfold run. cbn [for_range]. unfold bind at 1.
    destruct (exec o s) as [[[] s1]|] eqn:E; [|done]. intros Hr.
    assert (tracks (done ++ flat_map split (blocks [o])) s1) as Ht1.
    { destruct o as [p| |pick]; cbn [exec blocks flat_map app] in *.
      - unfold bind in E. destruct (Write p s) as [[r s2]|] eqn:Ew; [|done].
        injection E as <-. rewrite app_nil_r. by eapply Write_tracks.
      - rewrite app_nil_r. unfold bind in E.
        destruct (Close s) as [[r s2]|] eqn:Ec; [|done].
        injection E as <-. by eapply Close_tracks.
      - rewrite app_nil_r. by eapply start_tracks. }
    change (o :: ops) with ([o] ++ ops). unfold blocks.
    rewrite flat_map_app, flat_map_app, app_assoc.
    eapply IH; [exact Ht1|exact Hr].
Qed.

Lemma New_tracks (c : C) id L s :
  SetLimit L (New c id) = Some (tt, s) -> tracks [] s.
Proof.
  intros Hs. pose proof (New_state _ _ _ _ Hs) as (Hf & _).
  split; [exact Hf|]. revert Hs. unfold SetLimit, upd, modify, New.
  destruct (client_Open id c) as [err c']. intros [= <-]. cbn.
  split_and!; try done.
  - exists []. by destruct err.
  - destruct err; batches_ok.
Qed.

Lemma fresh_tracks (c : C) id L ops s :
  (SetLimit L ;;; run ops) (New c id) = Some (tt, s) ->
  tracks (flat_map split (blocks ops)) s.
Proof.
  unfold bind at 1.
  destruct (SetLimit L (New c id)) as [[[] s0]|] eqn:E0; [|done].
  intros Hr. apply New_tracks in E0.
  by apply (run_tracks _ _ _ _ E0) in Hr.
Qed.

(** X5.  The batches sent and then the pending batch are the first records
    written, in order and each once; they are all the records written
    while the writer has not been stopped. *)
Theorem batches_and_pending_are_the_first_records (c : C) id L ops s :
  (SetLimit L ;;; run ops) (New c id) = Some (tt, s) ->
  exists rest,
    written (blocks ops) = (sent (events s) ++ pending (b s)) ++ rest /\
    (closed (b s) = false -> rest = []).
Proof.
  intros Hr. apply fresh_tracks in Hr as (_ & Hs & _). exact Hs.
Qed.

(** X6.  No batch sent to the log service is empty. *)
Theorem no_empty_batch_is_sent (c : C) id L ops s :
  (SetLimit L ;;; run ops) (New c id) = Some (tt, s) ->
  Forall batch_not_empty (events s).
Proof.
  intros Hr. apply fresh_tracks in Hr as (_ & _ & Hb & _). exact Hb.
Qed.

Lemma lines_from_length n parts : length (lines_from n parts) = length parts.
Proof.
  revert n. induction parts as [|m parts IH]; intros n; cbn; [done|].
  by rewrite IH.
Qed.

Lemma lines_from_numbers parts : forall n,
  Z.of_nat (n + length parts) <= int_max + 1 ->
  map Number (lines_from n parts) = map Z.of_nat (seq n (length parts)).
Proof.
  induction parts as [|m parts IH]; intros n Hn; cbn [lines_from map length seq];
    [done|].
  cbn [length] in Hn. rewrite IH by lia. cbn [Number]. f_equal.
  apply int_wrap_id. unfold int_min, int_max in *. lia.
Qed.

(** X7.  The records of the history are numbered one after the other, up to
    the number of records written: sequence numbers grow by one from
    record to record, as long as the counter does not wrap around. *)
Theorem history_numbers_are_consecutive (c : C) id L ops s :
  (SetLimit L ;;; run ops) (New c id) = Some (tt, s) ->
  Z.of_nat (length (flat_map split (blocks ops))) <= int_max + 1 ->
  exists first,
    map Number (history (b s)) =
      map Z.of_nat (seq first (length (history (b s)))) /\
    (first + length (history (b s)))%nat =
      length (flat_map split (blocks ops)).
Proof.
  intros Hr Hcount. apply fresh_tracks in Hr as ((_ & _ & [ev Hev] & _) & _).
  pose proof (lines_from_numbers (flat_map split (blocks ops)) 0 Hcount) as Hnum.
  pose proof (lines_from_length 0 (flat_map split (blocks ops))) as Hlen.
  rewrite Hev in Hnum, Hlen. rewrite length_app in Hlen.
  rewrite <- Hlen, map_app, seq_app, map_app in Hnum.
  apply app_inj_1 in Hnum as [_ Hnum]; [|by rewrite !length_map, length_seq].
  exists (length ev). split; [exact Hnum|exact Hlen].
Qed.

(** X8.  A stopped writer streams no more: whatever is written, closed or
    flushed after the writer is stopped, nothing is added to the lines
    that are sent or pending. *)
Theorem stopped_writer_streams_no_more ops : forall s s' : State C,
  closed (b s) = true -> run ops s = Some (tt, s') ->
  closed (b s') = true /\
  sent (events s') ++ pending (b s') = sent (events s) ++ pending (b s).
Proof.
  assert (Hparts : forall p parts (s s' : State C),
             closed (b s) = true ->
             for_range parts (write_part p) s = Some (tt, s') ->
             closed (b s') = true /\ pending (b s') = pending (b s) /\
             events s' = events s).
  { intros p parts. induction parts as [|part parts IH]; intros s s' Hc;
      cbn [for_range].
    - by intros [= <-].
    - unfold bind at 1.
      destruct (write_part p part s) as [[[] s1]|] eqn:E; [|done]. intros Hr.
      apply write_part_effect in E as (He & _ & _ & _ & Hmono & Hp & _).
      specialize (Hmono Hc). rewrite Hmono in Hp.
      apply IH in Hr as (? & ? & ?); [|done]. split_and!; congruence. }
  induction ops as [|o ops IH]; intros s s' Hc.
  - by intros [= <-].
  - unfold run. cbn [for_range]. unfold bind at 1.
    destruct (exec o s) as [[[] s1]|] eqn:E; [|done]. intros Hr.
    assert (closed (b s1) = true /\
            sent (events s1) ++ pending (b s1) = sent (events s) ++ pending (b s))
      as [Hc1 Hs1].
    { destruct o as [p| |pick]; cbn [exec] in E.
      - unfold Write, bind, emit, modify, upd, ret in E.
        destruct (for_range (split p) (write_part p) _) as [[[] s2]|] eqn:Ep;
          [|done].
        injection E as <-. apply Hparts in Ep as (Hc2 & Hp2 & He2); [|done].
        cbn in *. rewrite Hp2, He2, sent_app. cbn. by rewrite app_nil_r.
      - destruct (Close_stream s) as (err & s2 & Hcl & _ & Hc2 & Hs2 & _).
        rewrite (bind_Some _ _ _ _ _ Hcl) in E. by injection E as <-.
      - destruct (start_stream pick s) as (s2 & Hst & Hcalm & Hs2 & _).
        rewrite Hst in E. injection E as <-. split; [|done].
        destruct Hcalm as (_ & _ & _ & _ & _ & _ & Hmono & _). by apply Hmono. }
    apply IH in Hr as [? ?]; [|done]. split; congruence.
Qed.


Lemma encode_lines_ok (enc : Line -> string) ls : forall data,
  (forall l, l ∈ ls -> json_Encode l = inl (enc l)) ->
  encode_lines ls data = inl (data +:+ joined (map enc ls)).
Proof.
  induction ls as [|x ls IH]; intros data Henc; cbn [encode_lines map].
  - by rewrite joined_nil_r.
  - rewrite (Henc x) by left. rewrite IH by (intros l Hl; apply Henc; by right).
    by rewrite joined_cons, append_assoc.
Qed.


(** X10.  The one upload of [Close] carries the encoded records of the
    history one after the other, in the order of the history. *)
Theorem Close_uploads_the_encoded_history (enc : Line -> string) (s : State C) :
  (forall l, l ∈ history (b s) -> json_Encode l = inl (enc l)) ->
  exists err s' new,
    Close s = Some (err, s') /\
    events s' = events s ++ new /\
    List.filter is_Upload new =
      [UploadCall (key (b s)) (joined (map enc (history (b s))))].
Proof.
  intros Henc. pose proof (encode_lines_ok enc _ "" Henc) as Hdata.
  change ("" +:+ joined (map enc (history (b s))))
    with (joined (map enc (history (b s)))) in Hdata.
  destruct (Close_spec s) as (err & c' & errc & Hc & _). rewrite Hdata in Hc.
  eexists err, _, _. split; [exact Hc|]. split; [reflexivity|].
  destruct (closed (b s)); [|destruct (pending (b s))]; by destruct err, errc.
Qed.

Lemma parts_flusher p parts : forall s s' : State C,
  for_range parts (write_part p) s = Some (tt, s') -> flusher s' = flusher s.
Proof.
  induction parts as [|part parts IH]; intros s s'; cbn [for_range].
  - by intros [= <-].
  - unfold bind at 1.
    destruct (write_part p part s) as [[[] s1]|] eqn:E; [|done]. intros Hr.
    apply IH in Hr as ->. by apply write_part_effect in E as (_ & -> & _).
Qed.

(** Writes alone leave the flusher where it is, send no batch, and
    leave a token in the ready channel. *)
Lemma writes_only ps : forall s s' : State C,
  run (map DoWrite ps) s = Some (tt, s') ->
  flusher s' = flusher s /\ sent (events s') = sent (events s) /\
  (ps <> [] \/ ready (b s) = true -> ready (b s') = true).
Proof.
  induction ps as [|p ps IH]; intros s s'.
  - intros [= <-]. split_and!; try done. by intros [?|?].
  - unfold run. cbn [map for_range exec]. unfold bind at 1 2.
    destruct (Write p s) as [[r s1]|] eqn:E; [|done]. unfold ret at 1.
    intros Hr. apply IH in Hr as (-> & -> & Hready).
    unfold Write, bind, emit, modify, upd, ret in E.
    destruct (for_range (split p) (write_part p) _) as [[[] s2]|] eqn:Ep; [|done].
    injection E as <- <-. cbn [flusher events b] in *.
    pose proof (parts_flusher _ _ _ _ Ep) as Hf.
    apply parts_keep in Ep as (_ & _ & He). cbn in *.
    split; [done|]. split; [by rewrite He, sent_app, app_nil_r|].
    intros _. apply Hready. by right.
Qed.

(** X11.  Writes between two steps of the flusher are sent together: after any
    number of writes to a new writer that is not stopped, the two steps
    of the flusher (the wake-up, then the end of the interval) send one
    batch, with every record written, and empty the pending batch. *)
Theorem writes_coalesce_into_one_batch (c : C) id L ps s x y :
  ps <> [] ->
  (SetLimit L ;;; run (map DoWrite ps)) (New c id) = Some (tt, s) ->
  closed (b s) = false ->
  exists s',
    run [DoStart x; DoStart y] s = Some (tt, s') /\
    events s' = events s ++ [BatchCall id (written ps)] /\
    pending (b s') = [].
Proof.
  intros Hps Hr Hopen.
  pose proof (fresh_tracks _ _ _ _ _ Hr) as (_ & (rest & Hrest & Hnil) & _ & Hclose).
  assert (blocks (map DoWrite ps) = ps) as Hblocks.
  { clear. induction ps as [|p ps IH]; [done|]. cbn. by rewrite <- IH at 2. }
  rewrite Hblocks in Hrest.
  revert Hr. unfold bind at 1.
  destruct (SetLimit L (New c id)) as [[[] s0]|] eqn:E0; [|done]. intros Hr.
  pose proof (run_keeps _ _ _ Hr) as [Hk _].
  apply writes_only in Hr as (Hf & Hsent & Hready). specialize (Hready (or_introl Hps)).
  pose proof (New_state _ _ _ _ E0) as (_ & Hid & _).
  assert (flusher s0 = Selecting /\ sent (events s0) = []) as [Hf0 Hs0].
  { revert E0. unfold SetLimit, upd, modify, New.
    destruct (client_Open id c) as [err c']. intros [= <-]. by destruct err. }
  rewrite Hf0 in Hf. rewrite Hs0 in Hsent.
  rewrite (Hnil Hopen), Hsent, app_nil_r in Hrest. cbn [app] in Hrest.
  fold (written ps) in Hrest.
  assert (pending (b s) <> []) as Hne.
  { rewrite <- Hrest. unfold written.
    destruct ps as [|p ps]; [done|]. cbn [flat_map].
    destruct (split p) as [|part parts] eqn:Es; [by apply split_not_nil in Es|].
    done. }
  rewrite Hopen in Hclose.
  set (s1 := mkState (set_ready false (b s)) (svc s) (clock s) Debouncing (events s)).
  assert (start x s = Some (tt, s1)) as Hwake.
  { unfold start. rewrite (bind_Some get _ s s s eq_refl).
    by rewrite Hf, Hclose, Hready. }
  destruct (flush_spec s1) as (r & c' & Hfl).
  assert (exists s', start y s1 = Some (tt, s') /\
                     events s' = events s ++ [BatchCall id (written ps)] /\
                     pending (b s') = []) as (s' & Hflush & He & Hp).
  { unfold start. rewrite (bind_Some get _ s1 s1 s1 eq_refl).
    cbn [s1 flusher b close set_ready]. rewrite Hclose. cbn [andb].
    rewrite (bind_Some _ _ _ _ _ Hfl).
    eexists. split; [reflexivity|]. cbn [s1 events b pending set_pending set_ready key].
    rewrite Hk, Hid. destruct (pending (b s)) eqn:Ep; [done|].
    by rewrite <- Hrest. }
  exists s'. split; [|done]. unfold run. cbn [for_range exec].
  rewrite (bind_Some _ _ _ _ _ Hwake). by rewrite (bind_Some _ _ _ _ _ Hflush).
Qed.

End More.

Section MoreExamples.
Local Open Scope go_scope.
#[local] Existing Instance plain.

(** Proves the run [ops] of a new writer with the limit [L], and names
    the state it ends in. *)
Ltac run_of L ops s H :=
  assert (exists s, (@SetLimit unit L ;;; @run unit quiet plain ops)
                      (@New unit quiet plain tt "step") = Some (tt, s))
    as (s & H) by (eexists; vm_compute; reflexivity);
  exists s; split; [exact H|].

Lemma pending_within_limit_witness :
  exists s,
    (@SetLimit unit 10 ;;; @run unit quiet plain busy_run)
      (@New unit quiet plain tt "step") = Some (tt, s) /\
    0 <= 10 /\ Forall (fits 10) (blocks busy_run) /\
    total (pending (b s)) <= 10 /\ total (history (b s)) <= 10.
Proof.
  assert (Forall (fits 10) (blocks busy_run)) as Hfit
    by (unfold busy_run, blocks; cbn [flat_map app];
        repeat constructor; unfold fits, int_max, len; cbn; lia).
  run_of 10 busy_run s Hrun.
  split; [lia|]. split; [exact Hfit|].
  exact (@pending_within_limit unit quiet plain tt "step" 10 busy_run s
           ltac:(lia) Hfit Hrun).
Defined.

Lemma Write_panics_iff_witness :
  exists s,
    (@SetLimit unit 10 ;;; @run unit quiet plain busy_run)
      (@New unit quiet plain tt "step") = Some (tt, s) /\
    0 <= 10 /\ Forall (fits 10) (blocks busy_run) /\ fits 10 "0123456789a" /\
    @Write unit plain "0123456789a" s = None.
Proof.
  assert (Forall (fits 10) (blocks busy_run)) as Hfit
    by (unfold busy_run, blocks; cbn [flat_map app];
        repeat constructor; unfold fits, int_max, len; cbn; lia).
  assert (fits 10 "0123456789a") as Hp by (unfold fits, int_max, len; cbn; lia).
  run_of 10 busy_run s Hrun.
  split; [lia|]. split; [exact Hfit|]. split; [exact Hp|].
  exact (@Write_panics_iff unit quiet plain tt "step" 10 busy_run s "0123456789a"
           ltac:(lia) Hfit Hp Hrun).
Defined.

Lemma batches_and_pending_are_the_first_records_witness :
  exists s,
    (@SetLimit unit 10 ;;; @run unit quiet plain busy_run)
      (@New unit quiet plain tt "step") = Some (tt, s) /\
    exists rest,
      written (blocks busy_run) = (sent (events s) ++ pending (b s)) ++ rest /\
      (closed (b s) = false -> rest = []).
Proof.
  run_of 10 busy_run s Hrun.
  exact (@batches_and_pending_are_the_first_records unit quiet plain tt "step" 10
           busy_run s Hrun).
Defined.

Lemma no_empty_batch_is_sent_witness :
  exists s,
    (@SetLimit unit 10 ;;; @run unit quiet plain busy_run)
      (@New unit quiet plain tt "step") = Some (tt, s) /\
    Forall batch_not_empty (events s).
Proof.
  run_of 10 busy_run s Hrun.
  exact (@no_empty_batch_is_sent unit quiet plain tt "step" 10 busy_run s Hrun).
Defined.

Lemma history_numbers_are_consecutive_witness :
  exists s,
    (@SetLimit unit 10 ;;; @run unit quiet plain busy_run)
      (@New unit quiet plain tt "step") = Some (tt, s) /\
    Z.of_nat (length (flat_map split (blocks busy_run))) <= int_max + 1 /\
    exists first,
      map Number (history (b s)) =
        map Z.of_nat (seq first (length (history (b s)))) /\
      (first + length (history (b s)))%nat =
        length (flat_map split (blocks busy_run)).
Proof.
  assert (Z.of_nat (length (flat_map split (blocks busy_run))) <= int_max + 1)
    as Hcount by (vm_compute; discriminate).
  run_of 10 busy_run s Hrun.
  split; [exact Hcount|].
  exact (@history_numbers_are_consecutive unit quiet plain tt "step" 10 busy_run s
           Hrun Hcount).
Defined.

Lemma stopped_writer_streams_no_more_witness :
  exists s s',
    @Close unit quiet plain fresh = Some (None, s) /\
    closed (b s) = true /\
    @run unit quiet plain [DoWrite "late"; DoStart false; DoStart false] s
    = Some (tt, s') /\
    closed (b s') = true /\
    sent (events s') ++ pending (b s') = sent (events s) ++ pending (b s).
Proof.
  eexists _, _. split; [vm_compute; reflexivity|]. split; [reflexivity|].
  split; [vm_compute; reflexivity|].
  match goal with |- context [closed (b ?st') = true] =>
    match goal with |- context [sent (events ?st) ++ pending (b ?st) ] =>
      assert (@run unit quiet plain [DoWrite "late"; DoStart false; DoStart false]
                st = Some (tt, st')) as Hrun by (vm_compute; reflexivity);
      exact (@stopped_writer_streams_no_more unit quiet plain _ st st'
               eq_refl Hrun)
    end
  end.
Defined.


Lemma Close_uploads_the_encoded_history_witness :
  exists s err s' new,
    @Write unit plain two_feeds fresh = Some ((4, None), s) /\
    (forall l, l ∈ history (b s) -> @json_Encode plain l = inl (Message l)) /\
    @Close unit quiet plain s = Some (err, s') /\
    events s' = events s ++ new /\
    List.filter is_Upload new =
      [UploadCall (key (b s)) (joined (map Message (history (b s))))].
Proof.
  assert (exists s, @Write unit plain two_feeds fresh = Some ((4, None), s))
    as (s & Hw) by (eexists; vm_compute; reflexivity).
  assert (forall l, l ∈ history (b s) -> @json_Encode plain l = inl (Message l))
    as Henc by reflexivity.
  destruct (@Close_uploads_the_encoded_history unit quiet plain Message s Henc)
    as (err & s' & new & Hc & He & Hf).
  exists s, err, s', new. by split_and!.
Defined.

Lemma writes_coalesce_into_one_batch_witness :
  exists s s',
    ["aaaa"; "bbbb"] <> [] /\
    (@SetLimit unit 10 ;;; @run unit quiet plain (map DoWrite ["aaaa"; "bbbb"]))
      (@New unit quiet plain tt "step") = Some (tt, s) /\
    closed (b s) = false /\
    @run unit quiet plain [DoStart false; DoStart true] s = Some (tt, s') /\
    events s' = events s ++ [BatchCall "step" (written ["aaaa"; "bbbb"])] /\
    pending (b s') = [].
Proof.
  assert (exists s,
             (@SetLimit unit 10 ;;;
              @run unit quiet plain (map DoWrite ["aaaa"; "bbbb"]))
               (@New unit quiet plain tt "step") = Some (tt, s) /\
             closed (b s) = false) as (s & Hrun & Hopen).
  { eexists. split; [vm_compute; reflexivity|]. reflexivity. }
  destruct (@writes_coalesce_into_one_batch unit quiet plain tt "step" 10
              ["aaaa"; "bbbb"] s false true ltac:(done) Hrun Hopen)
    as (s' & Hr & He & Hp).
  exists s, s'. by split_and!.
Defined.

End MoreExamples.
End livelog_streaming.

(** ** The engine: the calls of Setup, Run and Destroy *)

Module engine_calls.
Import Go Go_facts engine engine_facts engine_traces.

Section More.
Context {W Conn Ftp Sess Fh Out : Type} `{Cloud W Conn Ftp Sess Fh Out}.
Local Open Scope go_scope.

Ltac calls_steps :=
  repeat first
    [ apply emits_ret
    | apply emits_emit; reflexivity
    | apply emits_call; reflexivity
    | apply emits_defer
    | apply emits_check
    | apply emits_for_check; intros ?
    | apply emits_bind; [|intros ?]
    | match goal with
      | |- emits _ (match ?x with _ => _ end) => destruct x
      end ].

Lemma emits_inv {A} P (m : M (World W) A) w r w' :
  emits P m -> m w = Some (r, w') ->
  exists t, calls w' = calls w ++ t /\ Forall P t.
Proof.
  intros Hm Hr. destruct (Hm w) as (r0 & w0 & t & Hm0 & Hc & Ht).
  rewrite Hr in Hm0. injection Hm0 as <- <-. by exists t.
Qed.

Lemma call_inv {A} (c : Call) (f : W -> A * W) (w : World W) a w1 :
  call c f w = Some (a, w1) ->
  a = (f (env w)).1 /\ calls w1 = calls w ++ [c] /\ env w1 = (f (env w)).2.
Proof. rewrite call_eq. by intros [= <- <-]. Qed.

Lemma defer_call_inv {A B} (c : Call) (f : W -> B * W)
      (body : M (World W) A) w r w' :
  defer (call c f) body w = Some (r, w') ->
  exists w1, body w = Some (r, w1) /\ calls w' = calls w1 ++ [c].
Proof.
  unfold defer. intros Hd. apply bind_inv in Hd as (a & w1 & Hb & Hk).
  apply bind_inv in Hk as (x & w2 & Hc & Hr). injection Hr as <- <-.
  apply call_inv in Hc as (_ & Hc & _). by exists w1.
Qed.

Lemma check_inv (m k : M (World W) (option error)) w w' :
  check m k w = Some (None, w') ->
  exists w1, m w = Some (None, w1) /\ k w1 = Some (None, w').
Proof.
  unfold check. intros Hc. apply bind_inv in Hc as ([err|] & w1 & Hm & Hk); [done|].
  by exists w1.
Qed.

Lemma for_check_ok {A} (f : A -> list Call) body (l : list A) :
  (forall x w w', body x w = Some (None, w') -> calls w' = calls w ++ f x) ->
  forall (w w' : World W),
    for_check l body w = Some (None, w') -> calls w' = calls w ++ flat_map f l.
Proof.
  intros Hbody. induction l as [|x l IH]; intros w w'; cbn [for_check flat_map].
  - intros [= <-]. by rewrite app_nil_r.
  - intros Hc. apply check_inv in Hc as (w1 & Hx & Hl).
    apply Hbody in Hx. apply IH in Hl. by rewrite Hl, Hx, <- app_assoc.
Qed.

(** *** upload and mkdir *)


Lemma upload_ok client path data mode (w w' : World W) :
  upload client path data mode w = Some (None, w') ->
  calls w' = calls w ++ uploaded path data mode.
Proof.
  unfold upload. intros Hu.
  apply bind_inv in Hu as ([f|err] & w1 & Hcreate & Hu); [|done].
  apply call_inv in Hcreate as (_ & Hcreate & _).
  apply defer_call_inv in Hu as (w2 & Hu & Hclose).
  apply check_inv in Hu as (w3 & Hwrite & Hu).
  apply call_inv in Hwrite as (_ & Hwrite & _).
  apply check_inv in Hu as (w4 & Hchmod & Hu).
  apply call_inv in Hchmod as (_ & Hchmod & _). injection Hu as <-.
  by rewrite Hclose, Hchmod, Hwrite, Hcreate, <- !app_assoc.
Qed.

Lemma mkdir_ok client path mode (w w' : World W) :
  mkdir client path mode w = Some (None, w') ->
  calls w' = calls w ++ made path mode.
Proof.
  unfold mkdir. intros Hm. apply check_inv in Hm as (w1 & Hd & Hc).
  apply call_inv in Hd as (_ & Hd & _). apply call_inv in Hc as (_ & Hc & _).
  by rewrite Hc, Hd, <- app_assoc.
Qed.

Lemma stage_ok clientftp spec (w w' : World W) :
  stage clientftp spec w = Some (None, w') ->
  calls w' = calls w ++ staged spec.
Proof.
  unfold stage, staged. intros Hs.
  apply check_inv in Hs as (w1 & Hroot & Hs). apply mkdir_ok in Hroot.
  apply check_inv in Hs as (w2 & Hdirs & Hs).
  apply (for_check_ok (fun file => if IsDir file then made (Path file) (Mode file)
                                   else [])) in Hdirs.
  2:{ intros file v v'. destruct (IsDir file); cbn [negb].
      - apply mkdir_ok.
      - intros [= <-]. by rewrite app_nil_r. }
  apply check_inv in Hs as (w3 & Hfiles & Hs).
  apply (for_check_ok (fun file => if IsDir file then []
                                   else uploaded (Path file) (Data file) (Mode file)))
    in Hfiles.
  2:{ intros file v v'. destruct (IsDir file).
      - intros [= <-]. by rewrite app_nil_r.
      - apply upload_ok. }
  apply (for_check_ok (fun volume =>
                         if String.eqb (EmptyDir_ID (EmptyDir volume)) "" then []
                         else made (EmptyDir_ID (EmptyDir volume)) 511)) in Hs.
  2:{ intros volume v v'. destruct (String.eqb _ _).
      - intros [= <-]. by rewrite app_nil_r.
      - apply mkdir_ok. }
  by rewrite Hs, Hfiles, Hdirs, Hroot, <- !app_assoc.
Qed.

(** *** The shape of the calls of Run *)

Lemma shaped_fail step output tail (err : error) :
  shaped step output tail (ret (None, Some err)).
Proof.
  intros w r w' [= <- <-]. exists [], []. rewrite !app_nil_r.
  split; [done|]. split; [done|]. left. by split_and!.
Qed.

Lemma shaped_bind {A} step output tail (m : M (World W) A) k :
  emits (fun c => staging c = true) m ->
  (forall a, shaped step output tail (k a)) ->
  shaped step output tail (bind m k).
Proof.
  intros Hm Hk w r w' Hr. apply bind_inv in Hr as (a & w1 & Hm1 & Hk1).
  destruct (emits_inv _ _ _ _ _ Hm Hm1) as (t & Ht & HP).
  destruct (Hk a _ _ _ Hk1) as (pre & post & Hc & Hpre & Hends).
  exists (t ++ pre), post. rewrite Hc, Ht, <- !app_assoc.
  split; [done|]. split; [by apply Forall_app|done].
Qed.

Lemma shaped_defer {B} step output tail (c : Call) (f : W -> B * W) body :
  staging c = true ->
  shaped step output tail body ->
  shaped step output (tail ++ [c]) (defer (call c f) body).
Proof.
  intros Hc Hb w r w' Hr. apply defer_call_inv in Hr as (w1 & Hr & Hcalls).
  destruct (Hb _ _ _ Hr) as (pre & post & Hc1 & Hpre & Hends).
  destruct Hends as [(-> & Hr1 & Hr2)|[(s & e1 & err & Hs & -> & ->)|
                                       (s & e1 & err & Hs & -> & ->)]].
  - exists (pre ++ [c]), []. rewrite Hcalls, Hc1, !app_nil_r, <- app_assoc.
    split; [done|]. split; [apply Forall_app; split; [done|by constructor]|].
    left. by split_and!.
  - eexists pre, _. rewrite Hcalls, Hc1, <- !app_assoc.
    split; [reflexivity|]. split; [done|]. right. left. by exists s, e1, err.
  - eexists pre, _. rewrite Hcalls, Hc1, <- !app_assoc.
    split; [reflexivity|]. split; [done|]. right. right. by exists s, e1, err.
Qed.

Lemma shaped_execute session step output :
  shaped step output [] (execute session step output).
Proof.
  intros w r w'. unfold execute.
  rewrite (bind_Some _ _ _ _ _ (call_eq _ _ _)).
  destruct (session_Select session output (command_line step) (env w)).1
    as [err|ctxErr] eqn:Hsel.
  - intros [= <- <-]. exists [], [Select (command_line step)].
    split; [done|]. split; [done|]. right. left. by exists session, (env w), err.
  - rewrite (bind_Some _ _ _ _ _ (call_eq _ _ _)). intros [= <- <-].
    exists [], [Select (command_line step); Signal "KILL"]. cbn [calls].
    rewrite <- app_assoc.
    split; [done|]. split; [done|]. right. right.
    by exists session, (env w), ctxErr.
Qed.

Lemma emits_staging_upload client path data mode :
  emits (fun c => staging c = true) (upload client path data mode).
Proof. unfold upload. calls_steps. Qed.

Lemma shaped_Run e spec step output :
  shaped step output [SessionClose; SftpClose; ClientClose]
         (Run e spec step output).
Proof.
  unfold Run. apply shaped_bind; [by apply emits_call|].
  intros [client|err]; [|apply shaped_fail].
  apply (shaped_defer _ _ [SessionClose; SftpClose]); [done|].
  apply shaped_bind; [by apply emits_call|].
  intros [clientftp|err]; [|apply shaped_fail].
  apply (shaped_defer _ _ [SessionClose]); [done|].
  apply shaped_bind.
  { apply emits_for_check. intros file. apply emits_staging_upload. }
  intros [err|]; [apply shaped_fail|].
  apply shaped_bind; [by apply emits_call|].
  intros [session|err]; [|apply shaped_fail].
  apply (shaped_defer _ _ []); [done|]. apply shaped_execute.
Qed.

(** X13.  When [Run] returns a state, its calls are these, in this order:
    the connection and the file transfer are opened; every file of the
    step is uploaded, as the script that sets the working directory,
    the secrets and the variables before the data of the file; the
    session is opened and the command is waited for; the session, the
    file transfer and the connection are closed, last opened first.
    No signal is sent. *)
Theorem Run_uploads_the_scripts_then_runs e spec step output (w : World W)
        st err w' :
  Run e spec step output w = Some ((Some st, err), w') ->
  calls w' =
    calls w ++
    [Dial (IP (Instance spec)) (User (Instance spec)) (PrivateKey (Instance spec));
     NewClient] ++
    flat_map (fun file => uploaded (Path file) (script spec step file) (Mode file))
             (Step_Files step) ++
    [NewSession; Select (command_line step); SessionClose; SftpClose; ClientClose].
Proof.
  unfold Run. intros Hr.
  apply bind_inv in Hr as ([client|e1] & w1 & Hdial & Hr); [|done].
  apply call_inv in Hdial as (_ & Hdial & _).
  apply defer_call_inv in Hr as (w2 & Hr & Hclose1).
  apply bind_inv in Hr as ([clientftp|e2] & w3 & Hftp & Hr); [|done].
  apply call_inv in Hftp as (_ & Hftp & _).
  apply defer_call_inv in Hr as (w4 & Hr & Hclose2).
  apply bind_inv in Hr as ([e3|] & w5 & Hfiles & Hr); [done|].
  apply (for_check_ok (fun file => uploaded (Path file) (script spec step file)
                                            (Mode file))) in Hfiles.
  2:{ intros file v v'. apply upload_ok. }
  apply bind_inv in Hr as ([session|e4] & w6 & Hsession & Hr); [|done].
  apply call_inv in Hsession as (_ & Hsession & _).
  apply defer_call_inv in Hr as (w7 & Hr & Hclose3).
  unfold execute in Hr.
  apply bind_inv in Hr as ([done|ctxErr] & w8 & Hselect & Hr).
  2:{ by apply bind_inv in Hr as (? & ? & _ & ?). }
  apply call_inv in Hselect as (_ & Hselect & _). injection Hr as _ _ <-.
  rewrite Hclose1, Hclose2, Hclose3, Hselect, Hsession, Hfiles, Hftp, Hdial.
  by rewrite <- !app_assoc.
Qed.

Lemma filter_waits_staging pre :
  Forall (fun c => staging c = true) pre -> List.filter waits pre = [].
Proof.
  induction 1 as [|c pre Hc _ IH]; [done|]. cbn [List.filter].
  unfold staging in Hc. apply andb_prop in Hc as [_ Hc].
  apply negb_true_iff in Hc. by rewrite Hc.
Qed.

(** X14.  [Run] sends a signal only when the context is done before the
    command: then it is the one signal sent, the kill signal, right
    after the wait, and [Run] returns no state and the error of the
    context. *)
Theorem Run_kills_only_when_cancelled e spec step output (w : World W)
        r w' new sig :
  Run e spec step output w = Some (r, w') ->
  calls w' = calls w ++ new ->
  Signal sig ∈ new ->
  (exists session env1 ctxErr,
      (session_Select session output (command_line step) env1).1 = inr ctxErr /\
      r = (None, Some ctxErr)) /\
  List.filter waits new = [Select (command_line step); Signal "KILL"].
Proof.
  intros Hr Hnew Hin. destruct (shaped_Run e spec step output _ _ _ Hr)
    as (pre & post & Hc & Hpre & Hends).
  rewrite Hnew in Hc. apply app_inv_head in Hc. subst new.
  pose proof (filter_waits_staging _ Hpre) as Hf.
  assert (Signal sig ∉ pre) as Hnot.
  { intros Hp. rewrite Forall_forall in Hpre. by specialize (Hpre _ Hp). }
  apply elem_of_app in Hin as [Hin|Hin]; [done|].
  rewrite List.filter_app, Hf.
  destruct Hends as [(-> & _)|[(s & e1 & err1 & _ & _ & ->)|
                               (s & e1 & err1 & Hs & -> & ->)]].
  - by apply elem_of_nil in Hin.
  - repeat (apply elem_of_cons in Hin as [Hin|Hin]; [done|]).
    by apply elem_of_nil in Hin.
  - split; [by exists s, e1, err1|done].
Qed.

Lemma emits_remote_Run e spec step output :
  emits (fun c => remote c = true) (Run e spec step output).
Proof. unfold Run, upload, execute. calls_steps. Qed.

(** X15.  [Run] never panics; it calls the instance only, never the
    provisioning API; and it returns a state or an error, never
    neither. *)
Theorem Run_returns_a_state_or_an_error e spec step output (w : World W) :
  exists r w' new,
    Run e spec step output w = Some (r, w') /\
    calls w' = calls w ++ new /\
    Forall (fun c => remote c = true) new /\
    (r.1 = None -> is_Some r.2).
Proof.
  destruct (emits_remote_Run e spec step output w) as (r & w' & new & Hr & Hc & Hn).
  exists r, w', new. split_and!; try done.
  destruct (shaped_Run e spec step output _ _ _ Hr) as (pre & post & _ & _ & Hends).
  destruct Hends as [(_ & _ & Hs)|[(s & e1 & err1 & _ & -> & _)|
                                   (s & e1 & err1 & _ & -> & _)]]; [done..|].
  intros _. by eexists.
Qed.

(** *** The calls of Setup *)

Lemma emits_remote_configure spec :
  emits (fun c => remote c = true) (configure spec).
Proof.
  unfold configure, stage, create_network, mkdir, upload. calls_steps.
Qed.

Lemma filter_remote rest :
  Forall (fun c => remote c = true) rest ->
  List.filter (fun c => negb (remote c)) rest = [].
Proof.
  induction 1 as [|c rest Hc _ IH]; [done|]. cbn [List.filter]. by rewrite Hc.
Qed.

Lemma provision_calls e spec (w : World W) :
  exists r w' rest,
    provision e spec w = Some (r, w') /\
    calls w' =
      calls w ++
      Create (credentials spec) (provision_args spec (add_tags e spec)) :: rest /\
    Forall (fun c => remote c = true) rest /\
    (r.2 = None ->
     rest =
       [DialRetry (IP (Instance r.1)) (User (Instance spec))
                  (PrivateKey (Instance spec)); NewClient] ++
       staged spec ++
       [NewSession; Sleep 80;
        SessionRun (if String.eqb (OS (Platform spec)) "windows"
                    then "docker network create --driver nat myNetwork"
                    else "docker network create myNetwork");
        SessionClose; SftpClose; ClientClose]).
Proof.
  unfold provision. rewrite (bind_Some _ _ _ _ _ (call_eq _ _ _)).
  set (creds := credentials spec).
  set (tagged := set_Instance (set_Tags (add_tags e spec) (Instance spec)) spec).
  change (provision_args tagged (add_tags e spec))
    with (provision_args spec (add_tags e spec)).
  set (args := provision_args spec (add_tags e spec)).
  destruct (platform_Create creds args (env w)) as [[i|createErr] env1];
    cbn [fst snd].
  2:{ eexists _, _, []. split; [reflexivity|]. by split_and!. }
  match goal with |- context [configure ?sp] => set (bound := sp) end.
  destruct (emits_remote_configure bound
              (mkWorld env1 (calls w ++ [Create creds args])))
    as (err & w' & rest & Hc & Hcalls & Hrest).
  rewrite (bind_Some _ _ _ _ _ Hc).
  eexists _, w', rest. split; [reflexivity|].
  split; [rewrite Hcalls; cbn [calls]; by rewrite <- app_assoc|].
  split; [done|]. cbn [fst snd]. intros ->.
  revert Hc Hcalls. generalize (mkWorld env1 (calls w ++ [Create creds args])).
  intros w0 Hc Hcalls. unfold configure in Hc.
  apply bind_inv in Hc as ([client|e1] & w1 & Hd & Hc); [|done].
  apply call_inv in Hd as (_ & Hd & _).
  apply defer_call_inv in Hc as (w2 & Hc & Hc2).
  apply bind_inv in Hc as ([clientftp|e2] & w3 & Hn & Hc); [|done].
  apply call_inv in Hn as (_ & Hn & _).
  apply defer_call_inv in Hc as (w4 & Hc & Hc4).
  apply check_inv in Hc as (w5 & Hst & Hc). apply stage_ok in Hst.
  unfold create_network in Hc.
  apply bind_inv in Hc as ([session|e4] & w6 & Hs & Hc); [|done].
  apply call_inv in Hs as (_ & Hs & _).
  apply defer_call_inv in Hc as (w7 & Hc & Hc7).
  apply bind_inv in Hc as ([] & w8 & Hsl & Hc).
  injection Hsl as <-. apply call_inv in Hc as (_ & Hc & _). cbn [calls] in Hc.
  apply (app_inv_head (calls w0)). rewrite <- Hcalls.
  rewrite Hc2, Hc4, Hc7, Hc, Hs, Hst, Hn, Hd.
  change (OS (Platform bound)) with (OS (Platform spec)).
  change (staged bound) with (staged spec).
  change (User (Instance bound)) with (User (Instance spec)).
  change (PrivateKey (Instance bound)) with (PrivateKey (Instance spec)).
  by rewrite <- !app_assoc.
Qed.

(** X16.  The calls of [Setup] to the provisioning API: [TryPool] once for a
    pool-backed spec and not otherwise, then [Create] once when no
    instance of the pool is taken and not otherwise, and no other call:
    [Setup] never destroys an instance, whatever fails.  It never
    panics. *)
Theorem Setup_provisioning_calls e spec (w : World W) :
  exists r w' new,
    Setup e spec w = Some (r, w') /\
    calls w' = calls w ++ new /\
    List.filter (fun c => negb (remote c)) new =
      [EnterSetup spec] ++
      (if UsePool (Instance spec)
       then [TryPool (credentials spec) (PoolName spec)] else []) ++
      (if pool_finds spec (env w) then []
       else [Create (credentials spec) (provision_args spec (add_tags e spec))]).
Proof.
  rewrite Setup_eq, reserve_eq. unfold pool_finds. cbn [env calls].
  destruct (UsePool (Instance spec)); cbn [andb]; cbn zeta.
  - destruct (platform_TryPool _ _ _).1.1.1.1.
    + eexists _, _, _. split; [reflexivity|]. cbn [calls].
      rewrite <- app_assoc. split; [reflexivity|]. reflexivity.
    + match goal with |- context [provision e spec ?w1] =>
        destruct (provision_calls e spec w1)
          as (r & w' & rest & Hp & Hcalls & Hrest & _) end.
      rewrite Hp. eexists _, _, _. split; [reflexivity|]. rewrite Hcalls.
      cbn [calls]. rewrite <- !app_assoc. split; [reflexivity|].
      cbn. by rewrite filter_remote.
  - destruct (provision_calls e spec (mkWorld (env w) (calls w ++ [EnterSetup spec])))
      as (r & w' & rest & Hp & Hcalls & Hrest & _).
    rewrite Hp. eexists _, _, _. split; [reflexivity|]. rewrite Hcalls.
    cbn [calls]. rewrite <- !app_assoc. split; [reflexivity|].
    cbn. by rewrite filter_remote.
Qed.

(** X17.  A [Setup] that takes no instance of a pool returns no error only
    after these calls, in this order: the instance is created; the
    connection to the address it wrote to the spec and the file
    transfer are opened; the workspace, every folder, every file and
    every folder of a temporary volume of the spec are made; on a new
    session, after the wait of 80 seconds, the docker network is
    created (with the nat driver on Windows); the session, the file
    transfer and the connection are closed. *)
Theorem Setup_calls_on_success e spec (w : World W) spec' w' :
  pool_finds spec (env w) = false ->
  Setup e spec w = Some ((spec', None), w') ->
  calls w' =
    calls w ++
    [EnterSetup spec] ++
    (if UsePool (Instance spec)
     then [TryPool (credentials spec) (PoolName spec)] else []) ++
    [Create (credentials spec) (provision_args spec (add_tags e spec));
     DialRetry (IP (Instance spec')) (User (Instance spec))
               (PrivateKey (Instance spec));
     NewClient] ++
    staged spec ++
    [NewSession; Sleep 80;
     SessionRun (if String.eqb (OS (Platform spec)) "windows"
                 then "docker network create --driver nat myNetwork"
                 else "docker network create myNetwork");
     SessionClose; SftpClose; ClientClose].
Proof.
  unfold pool_finds. rewrite Setup_eq, reserve_eq. cbn [env calls]. cbn zeta.
  intros Hfinds.
  assert ((if UsePool (Instance spec)
           then if (platform_TryPool (credentials spec) (PoolName spec)
                      (env w)).1.1.1.1
                then Some ((platform_TryPool (credentials spec) (PoolName spec)
                              (env w)).1.1.1.2,
                           (platform_TryPool (credentials spec) (PoolName spec)
                              (env w)).1.1.2)
                else None
           else None) = None) as ->.
  { destruct (UsePool (Instance spec)); [|done]. cbn in Hfinds. by rewrite Hfinds. }
  match goal with |- provision e spec ?w1 = _ -> _ =>
    destruct (provision_calls e spec w1)
      as (r & w0 & rest & Hp & Hcalls & _ & Hok) end.
  rewrite Hp. intros [= -> ->]. cbn [fst snd] in Hok. rewrite (Hok eq_refl) in Hcalls.
  rewrite Hcalls.
  destruct (UsePool (Instance spec)); cbn [calls]; by rewrite <- !app_assoc.
Qed.

(** *** Destroy and the configuration of the runner *)


Lemma Setup_settled e spec (w : World W) spec' err w' :
  Setup e spec w = Some ((spec', err), w') -> settled spec' = settled spec.
Proof.
  rewrite Setup_eq, reserve_eq. cbn zeta.
  destruct (UsePool (Instance spec)) eqn:Hup;
    [destruct (platform_TryPool _ _ _).1.1.1.1|].
  - intros [= <- _ _]. by destruct spec as [? [] ? ? ? ? ?].
  - match goal with |- provision e spec ?w1 = _ -> _ =>
      destruct (provision_spec e spec w1) as (sp & er & w2 & rest & Hp & _ & _ & Hsp)
    end.
    rewrite Hp. intros [= <- _ _].
    destruct (platform_Create _ _ _).1; [|destruct Hsp as [Hsp _]];
      subst sp; by destruct spec as [? [] ? ? ? ? ?].
  - match goal with |- provision e spec ?w1 = _ -> _ =>
      destruct (provision_spec e spec w1) as (sp & er & w2 & rest & Hp & _ & _ & Hsp)
    end.
    rewrite Hp. intros [= <- _ _].
    destruct (platform_Create _ _ _).1; [|destruct Hsp as [Hsp _]];
      subst sp; by destruct spec as [? [] ? ? ? ? ?].
Qed.

(** X18.  [Destroy] leaves the configuration of the runner as it is, but
    for the id, the ip and the tags of the instance in the spec of the
    pool it fills: the name of the runner, the pools kept, their sizes
    and every other pool are unchanged. *)
Theorem Destroy_keeps_the_configuration e spec (w : World W) e' err w' :
  Destroy e spec w = Some ((e', err), w') ->
  RunnerName (opts e') = RunnerName (opts e) /\
  forall name,
    (name <> PoolName spec ->
     Pools (opts e') !! name = Pools (opts e) !! name) /\
    PoolSize <$> Pools (opts e') !! name = PoolSize <$> Pools (opts e) !! name /\
    settled <$> (Pools (opts e') !! name ≫= InstanceSpec) =
    settled <$> (Pools (opts e) !! name ≫= InstanceSpec).
Proof.
  unfold Destroy. rewrite (bind_Some _ _ _ _ _ (call_eq _ _ _)).
  destruct (platform_Destroy _ _ _).1; [by intros [= <- _ _]|].
  destruct (UsePool (Instance spec)); [|by intros [= <- _ _]].
  rewrite (bind_Some _ _ _ _ _ (call_eq _ _ _)).
  destruct (platform_PoolCountFree _ _ _) as [[poolCount countPoolErr] env2].
  cbn [fst snd].
  destruct (Pools (opts e) !! PoolName spec) as [[template n]|] eqn:Hlook;
    unfold default; cbn [from_option id InstanceSpec PoolSize].
  2:{ destruct (poolCount <? 0); [done|]. by intros [= <- _ _]. }
  destruct (poolCount <? n); [|by intros [= <- _ _]].
  destruct template as [template|]; [|done].
  intros Hd. apply bind_inv in Hd as ([template' serr] & w1 & Hs & Hd).
  injection Hd as <- _ _. apply Setup_settled in Hs.
  cbn [opts RunnerName Pools]. split; [done|]. intros name.
  destruct (decide (name = PoolName spec)) as [->|Hne].
  - rewrite lookup_insert_eq, Hlook. cbn. split_and!; [done|done|by rewrite Hs].
  - by rewrite lookup_insert_ne.
Qed.


(** X20.  A spec whose pool the runner does not keep is never set up
    again: when the instance is destroyed and the count of free
    instances is not negative, [Destroy] returns no error after the
    destroy and the count, and the runner is as before. *)
Theorem Destroy_of_a_pool_not_kept e spec (w : World W) :
  let creds := credentials spec in
  let instance := platform.mkInstance (ID (Instance spec)) (IP (Instance spec)) in
  let destroyed := platform_Destroy creds instance (env w) in
  let counted := platform_PoolCountFree creds (PoolName spec) destroyed.2 in
  Pools (opts e) !! PoolName spec = None ->
  UsePool (Instance spec) = true ->
  destroyed.1 = None ->
  0 <= counted.1.1 ->
  Destroy e spec w =
  Some ((e, None),
        mkWorld counted.2
                (calls w ++ [PlatformDestroy creds instance;
                             PoolCountFree creds (PoolName spec)])).
Proof.
  intros creds instance destroyed counted Hlook Hup Hd Hc. unfold Destroy.
  fold creds. fold instance.
  rewrite (bind_Some _ _ _ _ _ (call_eq _ _ _)). cbn [env calls].
  fold destroyed. rewrite Hd, Hup.
  rewrite (bind_Some _ _ _ _ _ (call_eq _ _ _)). cbn [env calls].
  fold counted. rewrite Hlook. unfold default. cbn [from_option id PoolSize].
  destruct counted as [[poolCount countPoolErr] env2]. cbn [fst snd] in *.
  destruct (Z.ltb_spec poolCount 0); [lia|]. by rewrite <- app_assoc.
Qed.

(** *** The script of a step *)

Lemma leb_trans (s1 s2 s3 : string) :
  String.leb s1 s2 = true -> String.leb s2 s3 = true -> String.leb s1 s3 = true.
Proof.
  unfold String.leb. revert s2 s3.
  induction s1 as [|a s1 IH]; intros [|b s2] [|c s3]; cbn; try done.
  unfold Ascii.compare.
  destruct (N.compare_spec (N_of_ascii a) (N_of_ascii b)) as [Hab|Hab|Hab];
    [|intros _|done];
    (destruct (N.compare_spec (N_of_ascii b) (N_of_ascii c)) as [Hbc|Hbc|Hbc];
     [|intros _|done]).
  - rewrite Hab, Hbc, N.compare_refl. apply IH.
  - rewrite Hab. intros _. by apply N.compare_lt_iff in Hbc as ->.
  - rewrite <- Hbc. by apply N.compare_lt_iff in Hab as ->.
  - assert (N_of_ascii a < N_of_ascii c)%N as Hac by lia.
    by apply N.compare_lt_iff in Hac as ->.
Qed.

Lemma ltb_of_leb (s1 s2 : string) :
  String.leb s1 s2 = true -> s1 <> s2 -> String.ltb s1 s2 = true.
Proof.
  unfold String.leb, String.ltb. intros Hle Hne.
  destruct (String.compare s1 s2) eqn:Hc; [|done|done].
  by apply String.compare_eq_iff in Hc.
Qed.

Lemma ascending_strictly (l : list string) :
  StronglySorted (fun a b => Is_true (String.leb a b)) l -> NoDup l ->
  StronglySorted (fun a b => String.ltb a b = true) l.
Proof.
  induction 1 as [|k l Hl IH Hk]; [constructor|].
  intros [Hin Hnd]%NoDup_cons. constructor; [by apply IH|].
  rewrite Forall_forall in Hk. apply Forall_forall. intros k' Hk'.
  apply ltb_of_leb; [apply Is_true_true; by apply Hk|].
  by intros ->.
Qed.

Lemma sort_Strings_ascending keys :
  NoDup keys ->
  StronglySorted (fun a b => String.ltb a b = true) (sort_Strings keys) /\
  sort_Strings keys ≡ₚ keys.
Proof.
  intros Hnd. unfold sort_Strings.
  set (R := fun a b : string => Is_true (String.leb a b)).
  assert (Transitive R) as Htrans.
  { intros x y z Hxy Hyz. apply Is_true_true. apply Is_true_true in Hxy, Hyz.
    by eapply leb_trans. }
  assert (Total R) as Htotal.
  { intros x y. destruct (String.leb_total x y) as [Hl|Hl];
      [left|right]; by apply Is_true_true. }
  pose proof (@StronglySorted_merge_sort _ R _ Htrans Htotal keys) as Hs.
  pose proof (merge_sort_Permutation R keys) as Hp.
  split; [|exact Hp]. apply ascending_strictly; [exact Hs|]. by rewrite Hp.
Qed.

(** X21.  [writeEnviron] writes one line for each entry of the map, each
    entry once, in the strictly ascending order of the names of the
    variables. *)
Theorem writeEnviron_in_ascending_order os (envs : gmap string string) :
  exists kvs,
    writeEnviron os envs = export_lines os kvs /\
    kvs ≡ₚ map_to_list envs /\
    StronglySorted (fun a b => String.ltb a.1 b.1 = true) kvs.
Proof.
  unfold writeEnviron. cbn zeta.
  destruct (sort_Strings_ascending (map fst (map_to_list envs))) as [Hs Hp].
  { apply NoDup_fst_map_to_list. }
  set (keys := sort_Strings (map fst (map_to_list envs))) in *.
  exists (map (fun k => (k, default "" (envs !! k))) keys). split_and!.
  - unfold export_lines. clearbody keys. clear.
    induction keys as [|k keys IH]; [done|]. cbn. by rewrite IH.
  - rewrite Hp. rewrite map_map.
    rewrite <- (map_id (map_to_list envs)) at 2.
    erewrite map_ext_in; [reflexivity|].
    intros [k v] Hin. cbn.
    apply list_elem_of_In, elem_of_map_to_list in Hin. by rewrite Hin.
  - clearbody keys. clear Hp.
    induction Hs as [|k l Hl IH Hk]; [constructor|].
    cbn. constructor; [exact IH|].
    rewrite Forall_forall in Hk. apply Forall_forall. intros kv Hin.
    apply list_elem_of_fmap in Hin as (k' & -> & Hin). cbn. by apply Hk.
Qed.

End More.

(** *** More runs on the scripted cloud *)

Section MoreExamples.
#[local] Existing Instance scripted.

Lemma Run_uploads_the_scripts_then_runs_witness :
  exists st err w',
    Run runner pooled_spec build_step tt (start_world empty_pool)
    = Some ((Some st, err), w') /\
    calls w' =
      [Dial "" "root" "pem"; NewClient] ++
      uploaded "/tmp/drone/script" (script pooled_spec build_step
                                      (mkFile "/tmp/drone/script" 448 "make" false))
               448 ++
      [NewSession; Select "sh /tmp/drone/script";
       SessionClose; SftpClose; ClientClose].
Proof.
  assert (exists w',
             Run runner pooled_spec build_step tt (start_world empty_pool)
             = Some ((Some (mkState 17 true false), Some (ExitError 17)), w'))
    as (w' & Hr) by (eexists; vm_compute; reflexivity).
  exists (mkState 17 true false), (Some (ExitError 17)), w'. split; [exact Hr|].
  exact (Run_uploads_the_scripts_then_runs runner pooled_spec build_step tt
           (start_world empty_pool) _ _ _ Hr).
Defined.

Lemma Run_kills_only_when_cancelled_witness :
  exists r w' new,
    Run runner pooled_spec build_step tt (start_world cancelled) = Some (r, w') /\
    calls w' = calls (start_world cancelled) ++ new /\
    Signal "KILL" ∈ new /\
    r = (None, Some (errors_New "context canceled")) /\
    List.filter waits new = [Select (command_line build_step); Signal "KILL"].
Proof.
  assert (exists w',
             Run runner pooled_spec build_step tt (start_world cancelled)
             = Some ((None, Some (errors_New "context canceled")), w') /\
             Signal "KILL" ∈ calls w')
    as (w' & Hr & Hin).
  { eexists. split; [vm_compute; reflexivity|].
    cbn [calls]. repeat first [apply list_elem_of_here|apply list_elem_of_further]. }
  assert (calls w' = calls (start_world cancelled) ++ calls w') as Hc by reflexivity.
  destruct (Run_kills_only_when_cancelled runner pooled_spec build_step tt
              (start_world cancelled) _ _ _ _ Hr Hc Hin) as [_ Hf].
  eexists _, w', _. by split_and!.
Defined.

Lemma Setup_calls_on_success_witness :
  pool_finds windows_spec empty_pool = false /\
  exists spec' w',
    Setup runner windows_spec (start_world empty_pool) = Some ((spec', None), w') /\
    calls w' =
      [EnterSetup windows_spec;
       Create (credentials windows_spec)
              (provision_args windows_spec (add_tags runner windows_spec));
       DialRetry (IP (Instance spec')) "Administrator" "pem"; NewClient] ++
      staged windows_spec ++
      [NewSession; Sleep 80;
       SessionRun "docker network create --driver nat myNetwork";
       SessionClose; SftpClose; ClientClose].
Proof.
  assert (pool_finds windows_spec empty_pool = false) as Hnone by reflexivity.
  split; [exact Hnone|].
  assert (exists spec' w',
             Setup runner windows_spec (start_world empty_pool)
             = Some ((spec', None), w'))
    as (spec' & w' & Hs) by (eexists _, _; vm_compute; reflexivity).
  exists spec', w'. split; [exact Hs|].
  exact (Setup_calls_on_success runner windows_spec
           (start_world empty_pool) _ _ Hnone Hs).
Defined.

Lemma Destroy_keeps_the_configuration_witness :
  exists e' err w',
    Destroy runner pooled_spec (start_world empty_pool) = Some ((e', err), w') /\
    RunnerName (opts e') = "runner-1" /\
    PoolSize <$> Pools (opts e') !! "linux" = Some 2 /\
    settled <$> (Pools (opts e') !! "linux" ≫= InstanceSpec) =
    Some (settled pooled_spec).
Proof.
  assert (exists e' w',
             Destroy runner pooled_spec (start_world empty_pool)
             = Some ((e', None), w'))
    as (e' & w' & Hd) by (eexists _, _; vm_compute; reflexivity).
  destruct (Destroy_keeps_the_configuration runner pooled_spec
              (start_world empty_pool) _ _ _ Hd) as [Hn Hp].
  destruct (Hp "linux") as (_ & Hsize & Hspec).
  exists e', None, w'. split; [exact Hd|]. split; [exact Hn|].
  split; [by rewrite Hsize|]. by rewrite Hspec.
Defined.


Lemma Destroy_of_a_pool_not_kept_witness :
  Destroy runner stray_spec (start_world empty_pool) =
  Some ((runner, None),
        mkWorld empty_pool
                [PlatformDestroy (credentials stray_spec) (platform.mkInstance "" "");
                 PoolCountFree (credentials stray_spec) "macos"]).
Proof.
  assert (Pools (opts runner) !! PoolName stray_spec = None) as Hlook
    by (vm_compute; reflexivity).
  assert (0 <= free_count empty_pool) as Hcount by (vm_compute; discriminate).
  exact (Destroy_of_a_pool_not_kept runner stray_spec (start_world empty_pool)
           Hlook eq_refl eq_refl Hcount).
Defined.

End MoreExamples.
End engine_calls.
